(** * A shallow embedding of the tokenizers-huggingface TypeScript binding

    The binding wraps a native tokenization library behind a foreign-call
    boundary.  This development models the TypeScript sources

      - [src/foreign-functions.ts]  (symbol table, [throwErrors], the three
        call wrappers, [ForeignInstance]),
      - [src/normalizers.ts], [src/pre-tokenizers.ts],
        [src/pipeline-string.ts], [src/tokenizer.ts]  (the managed classes),

    as state-passing functions over a world made of the JavaScript object
    store and the trace of calls that crossed the boundary.

    Conventions.
      - A [bigint] handle and an integral JS [number] are both [Z]; the
        conversion [Number(bigint)] is written out ([Number]).
      - Text that the binding only passes along or prints is a [string].  A
        string that the binding measures or indexes ([length], [s[0]]) is
        the list of its UTF-16 code units.
      - The host is a parameter ([Native]): the runtime that loaded the
        library (Deno or Bun) and the native library itself, an oracle that
        answers a call from the trace so far; nothing is assumed about its
        answers.
      - Code generated from the protobuf schema ([src/generated/...]) is not
        part of the sources.  What the binding needs from it (the status
        enumeration, the message decoders) is collected in [Generated] and
        every theorem quantifies over it.
      - Protobuf serialisation of a request is left abstract: the trace
        records the message value handed to [inputParser.encode].
      - [dylib] is the library object returned by [dlopen]: native functions
        are reached through [dylib.symbols] ([dylib_symbols]); a function
        name read on the library object itself ([dylib]) is [undefined].
      - A native reply carries its out pointer and the bytes readable there;
        the read of the out buffer that follows every native call raises on
        a null pointer, as the pointer API of both runtimes does.
      - An error raised by the runtime itself (a [TypeError]) has the
        message of the runtime; the text given here stands for it and only
        its class is meant.
      - A Sequence keeps the array it was given.  The binding never changes
        such an array, and the object store holds its elements.
      - Default values of constructor parameters are the caller's: every
        parameter is explicit here.  [Tokenizer.fromTrain], whose request
        is assembled from generated messages only, is left out. *)

From Stdlib Require Import ZArith DecimalString.
From stdpp Require Import base list strings.

Open Scope Z_scope.

(** ** JavaScript values *)

Definition bytes := list Byte.byte.

(** [Number(x)] for a bigint [x]: the nearest IEEE-754 double, ties to even.
    A double carries a 53-bit significand, so the low bits beyond the 53
    leading ones are rounded away.  (Overflow to [Infinity] needs more than
    1024 bits and cannot happen for a 64-bit handle.) *)
Definition Number (x : Z) : Z :=
  let a := Z.abs x in
  let bits := Z.log2 a + 1 in
  if bits <=? 53 then x
  else
    let sh := bits - 53 in
    let q := Z.shiftr a sh in
    let r := Z.land a (Z.ones sh) in
    let half := Z.shiftl 1 (sh - 1) in
    let q' := if (half <? r) || ((r =? half) && Z.odd q) then q + 1 else q in
    Z.sgn x * Z.shiftl q' sh.

(** The text of a number inside a template literal. *)
Definition show (n : Z) : string := NilZero.string_of_int (Z.to_int n).
Arguments show : simpl never.

(** ** Errors ([src/errors.ts] and the built-in classes that can be raised) *)

Inductive ErrorClass :=
| Error | TypeError | RangeError
| ObjectDisposed
| InvalidProtocolBuffer | InvalidPointer | InvalidArguments | EmptyParams
| NormalizationError | PreTokenizationError
| TokenizerBuildError | TokenizerTrainingError
| TokenizerSaveError | TokenizerLoadFileError
| TokenizerEncodingError | TokenizerDecodingError.

Record Exn := mkExn { ename : ErrorClass; message : string }.

#[global] Instance ErrorClass_eq_dec : EqDecision ErrorClass.
Proof. solve_decision. Defined.

(** ** Messages built by the binding (shapes of [src/generated/...]) *)

(** [Rep.create({stringReplacement | regexReplacement, content})], the
    message of [generated/normalizers/replace.ts]. *)
Record Rep := mkRep {
  stringReplacement : option string;
  regexReplacement : option string;
  content : string }.

(** [utils.Split.create({stringSplit | regexSplit, behavior, invert})].
    [behavior] is the numeric value of [SplitDelimiterBehavior]. *)
Record utils_Split := mkSplit {
  stringSplit : option string;
  regexSplit : option string;
  behavior : Z;
  invert : bool }.

Module NormalizerWrapper.
Inductive t :=
| bertNormalizer (cleanText handleChineseChars stripAccents lowercase : bool)
| nfd | nfkd | nfc | nfkc | nmt
| stripNormalizer (stripLeft stripRight : bool)
| stripAccents
| sequence (addresses : list Z)
| lowercase
| prepend (prepend : string)
| replace (replace : Rep)
| precompiled (precompiledCharsmap : bytes)
| byteLevel.
End NormalizerWrapper.

Module PreTokenizerWrapper.
Inductive t :=
| bertPreTokenizer
| byteLevel (addPrefixSpace trimOffsets useRegex : bool)
| metaspace (replacementChar : list N) (prependScheme : Z) (split : bool)
| whitespace
| whitespaceSplit
| delimiter (char : list N)
| sequence (addresses : list Z)
| split (split : utils_Split)
| punctuation (behavior : Z)
| digits (individualDigits : bool)
| unicodeScripts
| fixedLength (length : Z).
End PreTokenizerWrapper.

Record EncodeParams := mkEncodeParams {
  input : string;
  addSpecialTokens : bool;
  includeTypeIds : bool;
  includeTokens : bool;
  includeWords : bool;
  includeOffsets : bool;
  includeSpecialTokensMask : bool;
  includeAttentionMask : bool;
  includeOverflowing : bool;
  input2 : option string }.

(** Every request that crosses the boundary. *)
Inductive Message :=
| PipelineStringParams (content : string)
| SplitParams (offsetReferential offsetType : Z) (includeOffsets : bool)
| NormalizerWrapperMsg (param : NormalizerWrapper.t)
| NormalizeParams (pipelineString : Z)
| PreTokenizerWrapperMsg (param : PreTokenizerWrapper.t)
| PreTokenizeParams (pipelineString : Z)
| TokenizerFromFile (file : string)
| DecodeParams (ids : list Z) (skipSpecialTokens : bool)
| EncodeParamsMsg (params : EncodeParams).

(** Replies decoded by the binding. *)
Record Offsets := mkOffsets { start : Z; end_ : Z }.
Record SplitResult := mkSplitResult { tokens : list string; offsets : list Offsets }.
Record DecodeResult := mkDecodeResult { decoded : string }.
Record EncodeResult (E : Type) := mkEncodeResult { encodings : list E }.
Arguments mkEncodeResult {E} encodings.
Arguments encodings {E} e.

(** The members of the generated [CallStatus] enumeration that [throwErrors]
    has a case for; [UNLISTED] stands for every other value that
    [callStatusFromJSON] can return (the success member, the unrecognised
    member). *)
Inductive CallStatus :=
| DECODE_ERROR
| INVALID_ARGUMENTS_DETAILS
| INVALID_ARGUMENTS
| UNKNOWN_ENUM_VALUE
| EMPTY_PARAMS
| INVALID_POINTER_DETAILS
| NORMALIZATION_ERROR_DETAILS
| PRE_TOKENIZATION_ERROR_DETAILS
| TOKENIZER_BUILD_ERROR_DETAILS
| TOKENIZER_TRAINING_ERROR_DETAILS
| TOKENIZER_SAVE_ERROR_DETAILS
| TOKENIZER_LOAD_FILE_ERROR_DETAILS
| TOKENIZER_ENCODING_ERROR_DETAILS
| TOKENIZER_DECODING_ERROR_DETAILS
| UNLISTED.

(** The generated code the binding imports.  A decoder may raise on a
    malformed buffer, hence the sum. *)
Class Generated := {
  callStatusFromJSON : Z -> CallStatus;
  Error_decode_details : bytes -> Exn + string;
  Encoding : Type;
  Encoding_ids : Encoding -> list Z;
  DecodeResult_decode : bytes -> Exn + DecodeResult;
  EncodeResult_decode : bytes -> Exn + EncodeResult Encoding;
  SplitResult_decode : bytes -> Exn + SplitResult }.

(** ** The foreign boundary *)

(** The symbols declared in the [dlopen] table of [foreign-functions.ts]. *)
Inductive Symbol :=
| free_buffer
| new_pipeline_string | get_splits | free_pipeline_string
| new_normalizer_wrapper | normalize | free_normalizer_wrapper
| new_pre_tokenizer_wrapper | pre_tokenize | free_pre_tokenizer_wrapper
| tokenizer_from_file | tokenizer_from_train | encode | decode
| free_tokenizer_wrapper.

#[global] Instance Symbol_eq_dec : EqDecision Symbol.
Proof. solve_decision. Defined.

Definition symbol_table : list (string * Symbol) :=
  [ ("free_buffer", free_buffer);
    ("new_pipeline_string", new_pipeline_string);
    ("get_splits", get_splits);
    ("free_pipeline_string", free_pipeline_string);
    ("new_normalizer_wrapper", new_normalizer_wrapper);
    ("normalize", normalize);
    ("free_normalizer_wrapper", free_normalizer_wrapper);
    ("new_pre_tokenizer_wrapper", new_pre_tokenizer_wrapper);
    ("pre_tokenize", pre_tokenize);
    ("free_pre_tokenizer_wrapper", free_pre_tokenizer_wrapper);
    ("tokenizer_from_file", tokenizer_from_file);
    ("tokenizer_from_train", tokenizer_from_train);
    ("encode", encode);
    ("decode", decode);
    ("free_tokenizer_wrapper", free_tokenizer_wrapper) ]%string.

(** [dylib.symbols.<name>]: the native function that the table declares
    under [name]; [None] is [undefined]. *)
Definition dylib_symbols (name : string) : option Symbol :=
  snd <$> List.find (fun entry => String.eqb (fst entry) name) symbol_table.

(** [dylib.<name>] for the name of a native function.  [dylib] is the
    library object that [dlopen] returns; its own properties are [symbols]
    and [close] (the module itself writes [dylib.symbols.free_buffer] and
    [dylib.close()]), so the name of a native function read on it gives
    [undefined]. *)
Definition dylib (name : string) : option Symbol := None.

(** What crosses the boundary, in order.  [FreeBufferNoArgs] is a call of
    [free_buffer] that passes no argument to the native function. *)
Inductive Event :=
| New (f : Symbol) (request : Message)
| Call (f : Symbol) (instancePtr : Z) (request : Message)
| Free (f : Symbol) (instancePtr : Z)
| FreeBuffer (ptr len : Z)
| FreeBufferNoArgs.

(** What a native constructor or method leaves behind: the [i32] status, the
    handle written to [instancePtr[0]] and the out buffer
    ([outPtr[0]], its bytes; [outLen[0]] is their number). *)
Record Reply := mkReply {
  status : Z;
  instance : Z;
  outPtr : Z;
  outBuf : bytes }.

(** The host of the binding.  [isDeno] tells the runtime that loaded the
    library: Deno when it holds, Bun otherwise (the module refuses any other
    runtime).  [native] is the native library: the reply to a call, given
    everything that crossed the boundary before it. *)
Class Native := {
  isDeno : bool;
  native : list Event -> Event -> Reply }.

(** ** The world: object store and boundary trace *)

Inductive Class_ :=
| Normalizer | NormalizerSequence
| PreTokenizer | PreTokenizerSequence
| PipelineString
| Tokenizer.

#[global] Instance Class__eq_dec : EqDecision Class_.
Proof. solve_decision. Defined.

(** A reference to an object: its index in the store. *)
Abbreviation ref := nat (only parsing).

(** A [ForeignInstance] object.  [children] is the [normalizers] /
    [preTokenizers] property of a Sequence (empty for the other classes). *)
Record Object := mkObject {
  cls : Class_;
  instancePtr : Z;
  children : list ref }.

Record World := mkWorld {
  heap : list Object;
  trace : list Event }.

(** How a piece of code ends: normally, by a [throw], or [Stuck] when the
    model has no JavaScript behaviour to give (a reference to no object, or
    the recursion budget of [dispose] used up). *)
Inductive Completion (A : Type) :=
| Normal (a : A)
| Throw (e : Exn)
| Stuck.
Arguments Normal {A} a.
Arguments Throw {A} e.
Arguments Stuck {A}.

Definition M (A : Type) : Type := World -> Completion A * World.

#[global] Instance M_ret : MRet M := fun A a w => (Normal a, w).
#[global] Instance M_bind : MBind M := fun A B k m w =>
  match m w with
  | (Normal a, w') => k a w'
  | (Throw e, w') => (Throw e, w')
  | (Stuck, w') => (Stuck, w')
  end.

Definition throw {A} (c : ErrorClass) (msg : string) : M A :=
  fun w => (Throw (mkExn c msg), w).
Definition rethrow {A} (e : Exn) : M A := fun w => (Throw e, w).
Definition stuck {A} : M A := fun w => (Stuck, w).

(** A decoder result, raised or returned. *)
Definition lift {A} (r : Exn + A) : M A :=
  match r with inl e => rethrow e | inr a => mret a end.

Definition deref (r : ref) : M Object := fun w =>
  match heap w !! r with
  | Some o => (Normal o, w)
  | None => (Stuck, w)
  end.

Definition alloc (o : Object) : M ref := fun w =>
  (Normal (length (heap w)), mkWorld (heap w ++ [o]) (trace w)).

Definition set_instancePtr (r : ref) (p : Z) : M unit := fun w =>
  match heap w !! r with
  | Some o =>
      (Normal tt, mkWorld (<[r := mkObject (cls o) p (children o)]> (heap w)) (trace w))
  | None => (Stuck, w)
  end.

Definition set_children (r : ref) (cs : list ref) : M unit := fun w =>
  match heap w !! r with
  | Some o =>
      (Normal tt, mkWorld (<[r := mkObject (cls o) (instancePtr o) cs]> (heap w)) (trace w))
  | None => (Stuck, w)
  end.

(** A call of a [void] native function. *)
Definition emit (ev : Event) : M unit := fun w =>
  (Normal tt, mkWorld (heap w) (trace w ++ [ev])).

(** A call of a native function with a reply. *)
Definition foreign `{Native} (ev : Event) : M Reply := fun w =>
  (Normal (native (trace w) ev), mkWorld (heap w) (trace w ++ [ev])).

(** Calling the value of a property read: [undefined(...)] is a [TypeError]
    (the wording of its message is the engine's; one text stands for it). *)
Definition callable (f : option Symbol) : M Symbol :=
  match f with
  | Some s => mret s
  | None => throw TypeError "undefined is not a function"
  end.

(** [array.forEach(f)], left to right, stopping at the first [throw]. *)
Fixpoint forEach {A} (l : list A) (f : A -> M unit) : M unit :=
  match l with
  | [] => mret tt
  | a :: l' => f a;; forEach l' f
  end.

(** ** [src/foreign-functions.ts] *)

Section ForeignFunctions.
Context `{Generated} `{Native}.

(** [throwErrors(status, buf)].  Every path through it ends in a [throw]. *)
Definition throwErrors (status : Z) (buf : bytes) : M unit :=
  details ← (if 0 <? status then lift (Error_decode_details buf) else mret ""%string);
  match callStatusFromJSON status with
  | DECODE_ERROR =>
      throw InvalidProtocolBuffer "DECODE_ERROR. InvalidProtocolBuffer"
  | INVALID_ARGUMENTS_DETAILS =>
      throw InvalidArguments ("INVALID_ARGUMENTS_DETAILS: " +:+ details)
  | INVALID_ARGUMENTS => throw InvalidArguments ""
  | UNKNOWN_ENUM_VALUE => throw RangeError "Unknown enum value"
  | EMPTY_PARAMS =>
      throw EmptyParams "EMPTY_PARAMS. A required field is not present"
  | INVALID_POINTER_DETAILS => throw InvalidPointer details
  | NORMALIZATION_ERROR_DETAILS => throw NormalizationError details
  | PRE_TOKENIZATION_ERROR_DETAILS => throw PreTokenizationError details
  | TOKENIZER_BUILD_ERROR_DETAILS => throw TokenizerBuildError details
  | TOKENIZER_TRAINING_ERROR_DETAILS => throw TokenizerTrainingError details
  | TOKENIZER_SAVE_ERROR_DETAILS => throw TokenizerSaveError details
  | TOKENIZER_LOAD_FILE_ERROR_DETAILS => throw TokenizerLoadFileError details
  | TOKENIZER_ENCODING_ERROR_DETAILS => throw TokenizerEncodingError details
  | TOKENIZER_DECODING_ERROR_DETAILS => throw TokenizerDecodingError details
  | UNLISTED =>
      if 0 <? status then
        throw Error ("Unknown error occurred, code: " +:+ show status
                     +:+ ", details: " +:+ details)
      else
        throw Error ("Unknown error occurred, code: " +:+ show status)
  end.

(** The read of the out buffer that follows every native call, before the
    status is looked at:
    [Deno.UnsafePointerView.getArrayBuffer(Deno.UnsafePointer.create(outPtr[0]), ...)]
    under Deno, [ffi.toArrayBuffer(Number(outPtr[0]))] under Bun.  Both
    raise a [TypeError] on a null pointer (the wording is the runtime's);
    at any other pointer the bytes of the reply are read. *)
Definition toArrayBuffer (r : Reply) : M bytes :=
  if outPtr r =? 0 then throw TypeError "the out pointer is null"
  else mret (outBuf r).

(** Copy the out buffer, then hand the native one back:
    [new Uint8Array(Buffer.from(outBufArray, 0, ...));
     dylib.symbols.free_buffer(outPtr[0], outLen[0])].
    The Deno table declares [free_buffer] with its two [u64] parameters.
    The Bun table declares it under the keys [parameters] and [result],
    where Bun reads [args] and [returns]: the function is bound without
    parameters and the native function receives no argument. *)
Definition take_buffer `{Native} (r : Reply) (outBufArray : bytes) : M bytes :=
  f ← callable (dylib_symbols "free_buffer");
  emit (if isDeno then FreeBuffer (outPtr r) (Z.of_nat (length (outBuf r)))
        else FreeBufferNoArgs);;
  mret outBufArray.

(** [createNewArgs(func, input, inputParser)]. *)
Definition createNewArgs (func : option Symbol) (input : Message) : M Z :=
  f ← callable func;
  r ← foreign (New f input);
  outBufArray ← toArrayBuffer r;
  (if negb (status r =? 0) then
     outBuf ← (if 0 <? status r then take_buffer r outBufArray else mret []);
     throwErrors (status r) outBuf
   else mret tt);;
  mret (instance r).

(** [methodArgsResult(func, instancePtr, input, inputParser, resultParser)]. *)
Definition methodArgsResult {R} (func : option Symbol) (instancePtr : Z)
    (input : Message) (resultParser : bytes -> Exn + R) : M R :=
  f ← callable func;
  r ← foreign (Call f instancePtr input);
  outBufArray ← toArrayBuffer r;
  outBuf ← (if 0 <=? status r then take_buffer r outBufArray else mret []);
  throwErrors (status r) outBuf;;
  lift (resultParser outBuf).

(** [methodArgsNoResult(func, instancePtr, input, inputParser)]. *)
Definition methodArgsNoResult (func : option Symbol) (instancePtr : Z)
    (input : Message) : M unit :=
  f ← callable func;
  r ← foreign (Call f instancePtr input);
  outBufArray ← toArrayBuffer r;
  if negb (status r =? 0) then
    outBuf ← (if 0 <? status r then take_buffer r outBufArray else mret []);
    throwErrors (status r) outBuf
  else mret tt.

End ForeignFunctions.

(** *** [ForeignInstance] *)

(** [protected constructor() { this.instancePtr = 0n; }] *)
Definition ForeignInstance_new (c : Class_) : M ref :=
  alloc (mkObject c 0 []).

(** [static getInstancePtr(instance) { return Number(instance.instancePtr); }] *)
Definition getInstancePtr (instance : ref) : M Z :=
  o ← deref instance;
  mret (Number (instancePtr o)).

(** [freFunc()] of each class: the property it reads from [dylib]. *)
Definition freFunc (c : Class_) : option Symbol :=
  match c with
  | Normalizer | NormalizerSequence => dylib "free_normalizer_wrapper"
  | PreTokenizer | PreTokenizerSequence => dylib "free_pre_tokenizer_wrapper"
  | PipelineString => dylib "free_pipeline_string"
  | Tokenizer => dylib "free_tokenizer"
  end.

(** [ForeignInstance._dispose()]. *)
Definition ForeignInstance_dispose (this : ref) : M unit :=
  o ← deref this;
  if instancePtr o =? 0 then mret tt
  else
    f ← callable (freFunc (cls o));
    emit (Free f (instancePtr o));;
    set_instancePtr this 0.

(** [dispose()] calls [this._dispose()], which the two Sequence classes
    override: every child is disposed first, then [super._dispose()].  The
    recursion follows the object graph, so it is bounded by [fuel]. *)
Fixpoint dispose_rec (fuel : nat) (this : ref) : M unit :=
  match fuel with
  | O => stuck
  | S fuel' =>
      o ← deref this;
      match cls o with
      | NormalizerSequence | PreTokenizerSequence =>
          forEach (children o) (dispose_rec fuel');;
          ForeignInstance_dispose this
      | _ => ForeignInstance_dispose this
      end
  end.

(** A chain of children is never longer than the store. *)
Definition dispose (this : ref) : M unit :=
  fun w => dispose_rec (length (heap w)) this w.

(** [s[0]] for a string given by its UTF-16 code units: the string made of
    the first unit ([undefined], here the empty list, when there is none). *)
Definition index0 (s : list N) : list N :=
  match s with
  | [] => []
  | c :: _ => [c]
  end.

(** ** [src/pipeline-string.ts] *)

Module pipeline_string.
Section PipelineString.
Context `{Generated} `{Native}.

(** [new PipelineString(original)]. *)
Definition new (original : string) : M ref :=
  this ← ForeignInstance_new PipelineString;
  p ← createNewArgs (dylib "new_pipeline_string") (PipelineStringParams original);
  set_instancePtr this p;;
  mret this.

(** The [for] loop of [getSplits] over [r.tokens]; reading [.start] of a
    missing [r.offsets[i]] is a [TypeError]. *)
Fixpoint getSplits_loop (r : SplitResult) (includeOffsets : bool) (i : nat)
    (toks : list string) (result : list (string * option (Z * Z)))
    : M (list (string * option (Z * Z))) :=
  match toks with
  | [] => mret result
  | t :: toks' =>
      offset ← (if includeOffsets then
                  match offsets r !! i with
                  | Some o => mret (Some (start o, end_ o))
                  | None => throw TypeError "Cannot read properties of undefined"
                  end
                else mret None);
      getSplits_loop r includeOffsets (S i) toks' (result ++ [(t, offset)])
  end.

(** [getSplits(offsetReferential, offsetType, includeOffsets)]. *)
Definition getSplits (this : ref) (offsetReferential offsetType : Z)
    (includeOffsets : bool) : M (list (string * option (Z * Z))) :=
  o ← deref this;
  r ← methodArgsResult (dylib "get_splits") (instancePtr o)
        (SplitParams offsetReferential offsetType includeOffsets)
        SplitResult_decode;
  getSplits_loop r includeOffsets 0 (tokens r) [].

End PipelineString.
End pipeline_string.

(** ** [src/normalizers.ts] *)

Module normalizers.
Section Normalizers.
Context `{Generated} `{Native}.

(** The constructor of the abstract class [Normalizer], reached through
    [super(param)] from a subclass of class tag [c]. *)
Definition Normalizer_new (c : Class_) (param : NormalizerWrapper.t) : M ref :=
  this ← ForeignInstance_new c;
  p ← createNewArgs (dylib "new_normalizer_wrapper") (NormalizerWrapperMsg param);
  set_instancePtr this p;;
  mret this.

(** [normalize(pipelineString)]. *)
Definition normalize (this pipelineString : ref) : M unit :=
  o ← deref this;
  if instancePtr o =? 0 then throw ObjectDisposed ""
  else
    address ← getInstancePtr pipelineString;
    methodArgsNoResult (dylib "normalize") (instancePtr o) (NormalizeParams address).

Definition Bert (cleanText handleChineseChars stripAccents lowercase : bool) : M ref :=
  Normalizer_new Normalizer
    (NormalizerWrapper.bertNormalizer cleanText handleChineseChars stripAccents lowercase).
Definition Nfd : M ref := Normalizer_new Normalizer NormalizerWrapper.nfd.
Definition Nfkd : M ref := Normalizer_new Normalizer NormalizerWrapper.nfkd.
Definition Nfc : M ref := Normalizer_new Normalizer NormalizerWrapper.nfc.
Definition Nfkc : M ref := Normalizer_new Normalizer NormalizerWrapper.nfkc.
Definition Nmt : M ref := Normalizer_new Normalizer NormalizerWrapper.nmt.
Definition StripNormalizer (stripLeft stripRight : bool) : M ref :=
  Normalizer_new Normalizer (NormalizerWrapper.stripNormalizer stripLeft stripRight).
Definition StripAccents : M ref :=
  Normalizer_new Normalizer NormalizerWrapper.stripAccents.
Definition Lowercase : M ref :=
  Normalizer_new Normalizer NormalizerWrapper.lowercase.
Definition Prepend (prepend : string) : M ref :=
  Normalizer_new Normalizer (NormalizerWrapper.prepend prepend).
Definition Precompiled (precompiledCharsmap : bytes) : M ref :=
  Normalizer_new Normalizer (NormalizerWrapper.precompiled precompiledCharsmap).
Definition ByteLevel : M ref :=
  Normalizer_new Normalizer NormalizerWrapper.byteLevel.

(** The [for] loop of the [Sequence] constructor: the address of every
    element, or [ObjectDisposed] at the first element whose address is 0. *)
Fixpoint Sequence_addresses (normalizers : list ref) (i : Z) (addresses : list Z)
    : M (list Z) :=
  match normalizers with
  | [] => mret addresses
  | n :: rest =>
      address ← getInstancePtr n;
      if address =? 0 then
        throw ObjectDisposed ("The normalizer at index [" +:+ show i +:+ "] is disposed")
      else Sequence_addresses rest (i + 1) (addresses ++ [address])
  end.

(** [new Sequence(normalizers)]; the [normalizers] property is set once
    [super(...)] has returned. *)
Definition Sequence (normalizers : list ref) : M ref :=
  addresses ← Sequence_addresses normalizers 0 [];
  this ← Normalizer_new NormalizerSequence (NormalizerWrapper.sequence addresses);
  set_children this normalizers;;
  mret this.

(** The message chosen by the [Replace] constructor. *)
Definition Replace_message (pattern content : string) (isRegex : bool) : Rep :=
  if isRegex then mkRep None (Some pattern) content
  else mkRep (Some pattern) None content.

(** [new Replace(pattern, content, isRegex)]. *)
Definition Replace (pattern content : string) (isRegex : bool) : M ref :=
  let replace := Replace_message pattern content isRegex in
  Normalizer_new Normalizer (NormalizerWrapper.replace replace).

End Normalizers.
End normalizers.

(** ** [src/pre-tokenizers.ts] *)

Module pre_tokenizers.
Section PreTokenizers.
Context `{Generated} `{Native}.

(** The constructor of the abstract class [PreTokenizer]. *)
Definition PreTokenizer_new (c : Class_) (param : PreTokenizerWrapper.t) : M ref :=
  this ← ForeignInstance_new c;
  p ← createNewArgs (dylib "new_pre_tokenizer_wrapper") (PreTokenizerWrapperMsg param);
  set_instancePtr this p;;
  mret this.

(** [preTokenize(pipelineString)]. *)
Definition preTokenize (this pipelineString : ref) : M unit :=
  o ← deref this;
  if instancePtr o =? 0 then throw ObjectDisposed ""
  else
    address ← getInstancePtr pipelineString;
    methodArgsNoResult (dylib "pre_tokenize") (instancePtr o) (PreTokenizeParams address).

Definition Bert : M ref :=
  PreTokenizer_new PreTokenizer PreTokenizerWrapper.bertPreTokenizer.
Definition ByteLevel (addPrefixSpace trimOffsets useRegex : bool) : M ref :=
  PreTokenizer_new PreTokenizer
    (PreTokenizerWrapper.byteLevel addPrefixSpace trimOffsets useRegex).

(** [new Metaspace(replacementChar, prependScheme, split)]. *)
Definition Metaspace (replacementChar : list N) (prependScheme : Z) (split : bool)
    : M ref :=
  if (length replacementChar =? 0)%nat then
    throw Error "replacementChar must have a length of 1"
  else
    let replacementChar := index0 replacementChar in
    PreTokenizer_new PreTokenizer
      (PreTokenizerWrapper.metaspace replacementChar prependScheme split).

Definition Whitespace : M ref :=
  PreTokenizer_new PreTokenizer PreTokenizerWrapper.whitespace.
Definition WhitespaceSplit : M ref :=
  PreTokenizer_new PreTokenizer PreTokenizerWrapper.whitespaceSplit.

(** [new Delimiter(delimiterChar)]. *)
Definition Delimiter (delimiterChar : list N) : M ref :=
  if (length delimiterChar =? 0)%nat then
    throw Error "delimiterChar must have a length of 1"
  else
    let delimiterChar := index0 delimiterChar in
    PreTokenizer_new PreTokenizer (PreTokenizerWrapper.delimiter delimiterChar).

Fixpoint Sequence_addresses (preTokenizers : list ref) (i : Z) (addresses : list Z)
    : M (list Z) :=
  match preTokenizers with
  | [] => mret addresses
  | pt :: rest =>
      address ← getInstancePtr pt;
      if address =? 0 then
        throw ObjectDisposed
          ("The preTokenizers at index [" +:+ show i +:+ "] is disposed")
      else Sequence_addresses rest (i + 1) (addresses ++ [address])
  end.

(** [new Sequence(preTokenizers)]. *)
Definition Sequence (preTokenizers : list ref) : M ref :=
  addresses ← Sequence_addresses preTokenizers 0 [];
  this ← PreTokenizer_new PreTokenizerSequence (PreTokenizerWrapper.sequence addresses);
  set_children this preTokenizers;;
  mret this.

(** The message chosen by the [Split] constructor. *)
Definition Split_message (pattern : string) (behavior : Z) (invert isRegex : bool)
    : utils_Split :=
  if isRegex then mkSplit (Some pattern) None behavior invert
  else mkSplit None (Some pattern) behavior invert.

(** [new Split(pattern, behavior, invert, isRegex)]. *)
Definition Split (pattern : string) (behavior : Z) (invert isRegex : bool) : M ref :=
  let split := Split_message pattern behavior invert isRegex in
  PreTokenizer_new PreTokenizer (PreTokenizerWrapper.split split).

Definition Punctuation (behavior : Z) : M ref :=
  PreTokenizer_new PreTokenizer (PreTokenizerWrapper.punctuation behavior).
Definition Digits (individualDigits : bool) : M ref :=
  PreTokenizer_new PreTokenizer (PreTokenizerWrapper.digits individualDigits).
Definition UnicodeScripts : M ref :=
  PreTokenizer_new PreTokenizer PreTokenizerWrapper.unicodeScripts.
Definition FixedLength (length : Z) : M ref :=
  PreTokenizer_new PreTokenizer (PreTokenizerWrapper.fixedLength length).

End PreTokenizers.
End pre_tokenizers.

(** ** [src/tokenizer.ts] *)

Module tokenizer.
Section Tokenizer.
Context `{Generated} `{Native}.

(** [new Tokenizer(addr)]. *)
Definition new (addr : Z) : M ref :=
  this ← ForeignInstance_new Tokenizer;
  set_instancePtr this addr;;
  mret this.

(** [Tokenizer.fromFile(path)]. *)
Definition fromFile (path : string) : M ref :=
  addr ← createNewArgs (dylib "tokenizer_from_file") (TokenizerFromFile path);
  new addr.

(** [decode(ids, skipSpecialTokens)]. *)
Definition decode (this : ref) (ids : list Z) (skipSpecialTokens : bool) : M string :=
  o ← deref this;
  if instancePtr o =? 0 then throw ObjectDisposed ""
  else
    r ← methodArgsResult (dylib "decode") (instancePtr o)
          (DecodeParams ids skipSpecialTokens) DecodeResult_decode;
    mret (decoded r).

(** [encode(input, addSpecialTokens, input2, include...)]. *)
Definition encode (this : ref) (input : string) (addSpecialTokens : bool)
    (input2 : option string)
    (includeTypeIds includeTokens includeWords includeOffsets
     includeSpecialTokensMask includeAttentionMask includeOverflowing : bool)
    : M (list Encoding) :=
  o ← deref this;
  if instancePtr o =? 0 then throw ObjectDisposed ""
  else
    let encodeParams :=
      mkEncodeParams input addSpecialTokens includeTypeIds includeTokens
        includeWords includeOffsets includeSpecialTokensMask
        includeAttentionMask includeOverflowing None in
    let encodeParams :=
      match input2 with
      | Some i2 =>
          mkEncodeParams input addSpecialTokens includeTypeIds includeTokens
            includeWords includeOffsets includeSpecialTokensMask
            includeAttentionMask includeOverflowing (Some i2)
      | None => encodeParams
      end in
    r ← methodArgsResult (dylib "encode") (instancePtr o)
          (EncodeParamsMsg encodeParams) EncodeResult_decode;
    mret (encodings r).

End Tokenizer.
End tokenizer.

(** ** Observations on worlds and traces *)

(** The handles passed to a native free function, in order. *)
Definition frees (tr : list Event) : list (Symbol * Z) :=
  omap (fun ev => match ev with Free f p => Some (f, p) | _ => None end) tr.

(** How many times the handle [p] was handed to a native free function. *)
Definition times_freed (p : Z) (tr : list Event) : nat :=
  length (filter (fun fp => snd fp = p) (frees tr)).

(** [a] occurs inside [b] (as [b.includes(a)]). *)
Definition includes (a b : string) : Prop :=
  exists pre post, b = (pre +:+ a +:+ post)%string.



Definition is_sequence (c : Class_) : bool :=
  match c with
  | NormalizerSequence | PreTokenizerSequence => true
  | _ => false
  end.

(** [h'] is [h] after some handles were zeroed: same objects, same classes,
    same children. *)
Definition zeroed (h h' : list Object) : Prop :=
  length h' = length h /\
  forall r o, h !! r = Some o ->
    exists o', h' !! r = Some o' /\ cls o' = cls o /\ children o' = children o /\
               (instancePtr o' = instancePtr o \/ instancePtr o' = 0).

(** The object [r] and, below a Sequence, all its children hold no handle
    (followed to depth [n]). *)
Fixpoint released (n : nat) (h : list Object) (r : ref) : Prop :=
  match n with
  | O => False
  | S n' =>
      exists o, h !! r = Some o /\ instancePtr o = 0 /\
        (is_sequence (cls o) = true -> Forall (released n' h) (children o))
  end.

(** Children were constructed before their Sequence. *)
Definition wf_heap (h : list Object) : Prop :=
  forall r o, h !! r = Some o -> Forall (fun c => (c < r)%nat) (children o).

(** The round trip of the specification,
    [decode(encode(x).ids, skipSpecialTokens = true)], read on the first
    encoding that [encode] returns. *)
Definition roundtrip `{Generated} `{Native} (this : ref) (x : string) : M string :=
  es ← tokenizer.encode this x false None false false false false false false false;
  match es with
  | e :: _ => tokenizer.decode this (Encoding_ids e) true
  | [] => tokenizer.decode this [] true
  end.

(** The call that hands the out buffer of the reply [r] back to the native
    library, as the runtime makes it. *)
Definition buffer_release `{Native} (r : Reply) : Event :=
  if isDeno then FreeBuffer (outPtr r) (Z.of_nat (length (outBuf r)))
  else FreeBufferNoArgs.

(** A computation that leaves the object store alone and calls no native
    free function. *)
Definition quiet {A} (m : M A) : Prop :=
  forall w c w', m w = (c, w') ->
    heap w' = heap w /\ frees (trace w') = frees (trace w).

(** A constructor run: no native free function is called, and the store
    only grows by the object under construction. *)
Definition constructs (m : M ref) : Prop :=
  forall w c w', m w = (c, w') ->
    frees (trace w') = frees (trace w) /\
    (forall r o, heap w !! r = Some o -> heap w' !! r = Some o).

(** ** Concrete collaborators for closed examples *)

(** One possible numbering of [CallStatus], for the closed examples only:
    members with details are positive, members without are negative, 0 is
    success.  No theorem depends on it. *)
Definition sample_callStatusFromJSON (s : Z) : CallStatus :=
  match s with
  | -1 => DECODE_ERROR
  | -2 => INVALID_ARGUMENTS
  | -3 => UNKNOWN_ENUM_VALUE
  | -4 => EMPTY_PARAMS
  | 1 => INVALID_ARGUMENTS_DETAILS
  | 2 => INVALID_POINTER_DETAILS
  | 3 => NORMALIZATION_ERROR_DETAILS
  | 4 => PRE_TOKENIZATION_ERROR_DETAILS
  | 5 => TOKENIZER_BUILD_ERROR_DETAILS
  | 6 => TOKENIZER_TRAINING_ERROR_DETAILS
  | 7 => TOKENIZER_SAVE_ERROR_DETAILS
  | 8 => TOKENIZER_LOAD_FILE_ERROR_DETAILS
  | 9 => TOKENIZER_ENCODING_ERROR_DETAILS
  | 10 => TOKENIZER_DECODING_ERROR_DETAILS
  | _ => UNLISTED
  end.

(** Decoders that read the buffer as text (one token, one encoding). *)
Definition sample_generated : Generated := {|
  callStatusFromJSON := sample_callStatusFromJSON;
  Error_decode_details := fun b => inr (String.string_of_list_byte b);
  Encoding := list Z;
  Encoding_ids := fun e => e;
  DecodeResult_decode := fun b => inr (mkDecodeResult (String.string_of_list_byte b));
  EncodeResult_decode := fun b =>
    inr (mkEncodeResult [map (fun x => Z.of_N (Byte.to_N x)) b]);
  SplitResult_decode := fun b => inr (mkSplitResult [String.string_of_list_byte b] []) |}.

(** A native library that always succeeds, hands out a fresh handle per
    call and replies with the bytes of [reply]; loaded by Deno. *)
Definition obliging_native (reply : string) : Native := {|
  isDeno := true;
  native := fun tr _ =>
    mkReply 0 (Z.of_nat (length tr) + 1) 4096 (String.list_byte_of_string reply) |}.

(** A native library with one fixed reply, loaded by Deno. *)
Definition const_native (r : Reply) : Native := {|
  isDeno := true;
  native := fun _ _ => r |}.

(** The same library loaded by Bun. *)
Definition const_native_bun (r : Reply) : Native := {|
  isDeno := false;
  native := fun _ _ => r |}.

Definition empty_world : World := mkWorld [] [].

(** ** Module initialisation of [src/foreign-functions.ts] *)

(** The top-level statements of the module, up to the choice of the native
    package: the runtime test, the platform and architecture tests, and the
    package whose [path] is loaded.  The result is the specifier of the
    imported package, or the [Error] thrown. *)
Definition native_package (isDeno isBun : bool)
    (Deno_build_os Deno_build_arch process_platform process_arch : string)
    : Exn + string :=
  if negb (isDeno || isBun) then inl (mkExn Error "Unsupported runtime")
  else
    let os := if isDeno then Deno_build_os else process_platform in
    let arch := if isDeno then Deno_build_arch else process_arch in
    if negb (String.eqb os "windows" || String.eqb os "win32"
             || String.eqb os "linux" || String.eqb os "darwin") then
      inl (mkExn Error ("Unsupported platform: " +:+ os))
    else if negb (String.eqb arch "x64" || String.eqb arch "x86_64"
                  || String.eqb arch "arm64" || String.eqb arch "aarch64") then
      inl (mkExn Error ("Unsupported architecture: " +:+ arch))
    else if String.eqb os "windows" || String.eqb os "win32" then
      if String.eqb arch "x64" || String.eqb arch "x86_64" then
        inr "@lazy_engineer/tokenizers-huggingface-win32-x64"%string
      else inr "@lazy_engineer/tokenizers-huggingface-win32-arm64"%string
    else if String.eqb os "linux" then
      if String.eqb arch "x64" || String.eqb arch "x86_64" then
        inr "@lazy_engineer/tokenizers-huggingface-linux-x64"%string
      else inr "@lazy_engineer/tokenizers-huggingface-linux-arm64"%string
    else
      if String.eqb arch "x64" || String.eqb arch "x86_64" then
        inr "@lazy_engineer/tokenizers-huggingface-darwin-x64"%string
      else inr "@lazy_engineer/tokenizers-huggingface-darwin-arm64"%string.

(** The platform and architecture names the packages are published under,
    for the names the runtimes report. *)
Definition canonical_os (os : string) : option string :=
  if String.eqb os "windows" || String.eqb os "win32" then Some "win32"%string
  else if String.eqb os "linux" then Some "linux"%string
  else if String.eqb os "darwin" then Some "darwin"%string
  else None.

Definition canonical_arch (arch : string) : option string :=
  if String.eqb arch "x64" || String.eqb arch "x86_64" then Some "x64"%string
  else if String.eqb arch "arm64" || String.eqb arch "aarch64" then Some "arm64"%string
  else None.

(** ** Further observations *)

(** [k] calls of [dispose()] in a row on the same instance. *)
Fixpoint dispose_times (k : nat) (this : ref) : M unit :=
  match k with
  | O => mret tt
  | S k' => dispose this;; dispose_times k' this
  end.

(** * Properties *)

(** ** Running the monad *)

Lemma run_bind {A B} (m : M A) (k : A -> M B) (w : World) :
  (m ≫= k) w =
  match m w with
  | (Normal a, w') => k a w'
  | (Throw e, w') => (Throw e, w')
  | (Stuck, w') => (Stuck, w')
  end.
Proof. reflexivity. Qed.

Lemma run_ret {A} (a : A) (w : World) : (mret a : M A) w = (Normal a, w).
Proof. reflexivity. Qed.

Lemma run_throw {A} c msg (w : World) : @throw A c msg w = (Throw (mkExn c msg), w).
Proof. reflexivity. Qed.

(** A bind whose first part never ends normally never ends normally. *)
Lemma bind_not_normal_l {A B} (m : M A) (k : A -> M B) (w : World) :
  (forall a w', m w <> (Normal a, w')) ->
  forall b w', (m ≫= k) w <> (Normal b, w').
Proof.
  intros Hm b w'. rewrite run_bind.
  destruct (m w) as [[a| e |] w1] eqn:E; try discriminate.
  exfalso. exact (Hm a w1 eq_refl).
Qed.

(** Nor does a bind whose continuation never ends normally. *)
Lemma bind_not_normal {A B} (m : M A) (k : A -> M B) (w : World) :
  (forall a w1 b w', k a w1 <> (Normal b, w')) ->
  forall b w', (m ≫= k) w <> (Normal b, w').
Proof.
  intros Hk b w'. rewrite run_bind.
  destruct (m w) as [[a| e |] w1] eqn:E; try discriminate.
  apply Hk.
Qed.

(** ** [throwErrors] and the call wrappers *)

Section WrapperFacts.
Context `{Generated} `{Native}.

(** [throwErrors] ends in a [throw] on every status, 0 included, and leaves
    the world alone. *)
Lemma throwErrors_throws (s : Z) (buf : bytes) (w : World) :
  exists e, throwErrors s buf w = (Throw e, w).
Proof.
  unfold throwErrors. rewrite run_bind.
  destruct (0 <? s) eqn:Hs.
  - destruct (Error_decode_details buf) as [e | d]; simpl; [eauto |].
    destruct (callStatusFromJSON s); simpl; eauto.
  - simpl. destruct (callStatusFromJSON s); simpl; eauto.
Qed.

Lemma throwErrors_not_normal (s : Z) (buf : bytes) (w : World) u w' :
  throwErrors s buf w <> (Normal u, w').
Proof.
  destruct (throwErrors_throws s buf w) as [e ->]. discriminate.
Qed.

(** The value of [throwErrors] on a status outside the enumeration. *)
Lemma throwErrors_unlisted (s : Z) (buf : bytes) (w : World) :
  callStatusFromJSON s = UNLISTED ->
  throwErrors s buf w =
    if 0 <? s then
      match Error_decode_details buf with
      | inl e => (Throw e, w)
      | inr d =>
          (Throw (mkExn Error ("Unknown error occurred, code: " +:+ show s
                               +:+ ", details: " +:+ d)), w)
      end
    else (Throw (mkExn Error ("Unknown error occurred, code: " +:+ show s)), w).
Proof.
  intros Hu. unfold throwErrors. rewrite run_bind, Hu.
  destruct (0 <? s) eqn:Hs; simpl.
  - destruct (Error_decode_details buf); reflexivity.
  - reflexivity.
Qed.

(** [methodArgsResult] has no normal exit: [throwErrors] stands between the
    native call and [resultParser.decode]. *)
Lemma methodArgsResult_never_returns {R} func p input
    (resultParser : bytes -> Exn + R) (w : World) (a : R) (w' : World) :
  methodArgsResult func p input resultParser w <> (Normal a, w').
Proof.
  revert a w'. unfold methodArgsResult.
  apply bind_not_normal; intros f w1.
  apply bind_not_normal; intros r w2.
  apply bind_not_normal; intros outBufArray w3.
  apply bind_not_normal; intros buf w4.
  apply bind_not_normal_l. intros u w5. apply throwErrors_not_normal.
Qed.

End WrapperFacts.

(** ** Result-returning methods *)

Section ResultMethods.
Context `{Generated} `{Native}.

Lemma decode_never_returns this ids skip (w : World) a w' :
  tokenizer.decode this ids skip w <> (Normal a, w').
Proof.
  revert a w'. unfold tokenizer.decode.
  apply bind_not_normal; intros o w1.
  destruct (instancePtr o =? 0); [discriminate |].
  apply bind_not_normal_l. intros r w2. apply methodArgsResult_never_returns.
Qed.

Lemma encode_never_returns this x ast i2 f1 f2 f3 f4 f5 f6 f7 (w : World) a w' :
  tokenizer.encode this x ast i2 f1 f2 f3 f4 f5 f6 f7 w <> (Normal a, w').
Proof.
  revert a w'. unfold tokenizer.encode.
  apply bind_not_normal; intros o w1.
  destruct (instancePtr o =? 0); [discriminate |].
  apply bind_not_normal_l. intros r w2. apply methodArgsResult_never_returns.
Qed.

Lemma getSplits_never_returns this rf ty io (w : World) a w' :
  pipeline_string.getSplits this rf ty io w <> (Normal a, w').
Proof.
  revert a w'. unfold pipeline_string.getSplits.
  apply bind_not_normal; intros o w1.
  apply bind_not_normal_l. intros r w2. apply methodArgsResult_never_returns.
Qed.

End ResultMethods.

(** C1 (fails on the code).  The claim: when the native function reports
    status 0, [Tokenizer.encode], [Tokenizer.decode] and
    [PipelineString.getSplits] decode the result and return it.  The code:
    [methodArgsResult] calls [throwErrors] on every status, and
    [throwErrors] always throws, so none of the three methods ever returns
    a value, whatever the native library answers. *)
Theorem result_methods_never_return `{Generated} `{Native} (this : ref) (w : World) :
  (forall ids skip a w', tokenizer.decode this ids skip w <> (Normal a, w')) /\
  (forall x ast i2 f1 f2 f3 f4 f5 f6 f7 a w',
     tokenizer.encode this x ast i2 f1 f2 f3 f4 f5 f6 f7 w <> (Normal a, w')) /\
  (forall rf ty io a w',
     pipeline_string.getSplits this rf ty io w <> (Normal a, w')).
Proof.
  split; [| split]; intros.
  - apply decode_never_returns.
  - apply encode_never_returns.
  - apply getSplits_never_returns.
Qed.

(** The same at one input, on the wrapper itself with the declared symbol:
    a native [decode] that answers status 0 with the text "hello".  The
    reply is copied and released, then the error for "code 0" is raised. *)
Example decode_on_success_throws :
  let N : Native := obliging_native "hello" in
  let G : Generated := sample_generated in
  methodArgsResult (dylib_symbols "decode") 1 (DecodeParams [5; 6] true)
    DecodeResult_decode empty_world
  = (Throw (mkExn Error "Unknown error occurred, code: 0"),
     mkWorld [] [Call decode 1 (DecodeParams [5; 6] true); FreeBuffer 4096 5]).
Proof. vm_compute. reflexivity. Qed.

(** C7 (fails on the code, same defect as C1).  The claim: for ASCII [x],
    [decode(encode(x).ids, true)] equals [x].  The code: [encode] never
    returns, so the round trip never yields a string at all. *)
Theorem roundtrip_never_returns `{Generated} `{Native} (this : ref) (x : string)
    (w : World) (y : string) (w' : World) :
  roundtrip this x w <> (Normal y, w').
Proof.
  revert y w'. unfold roundtrip.
  apply bind_not_normal_l. intros es w1. apply encode_never_returns.
Qed.

(** At one input: on a tokenizer that holds a handle, [encode] raises when
    it calls the value of [dylib.encode]. *)
Example roundtrip_on_live_tokenizer_throws :
  let N : Native := obliging_native "a" in
  let G : Generated := sample_generated in
  roundtrip 0%nat "a" (mkWorld [mkObject Tokenizer 1 []] [])
  = (Throw (mkExn TypeError "undefined is not a function"),
     mkWorld [mkObject Tokenizer 1 []] []).
Proof. vm_compute. reflexivity. Qed.
(** ** Failure statuses *)


Lemma append_nil_r (a : string) : (a +:+ "" = a)%string.
Proof.
  induction a as [| x a IH]; [reflexivity | exact (f_equal (String x) IH)].
Qed.


Lemma includes_suffix (pre a : string) : includes a (pre +:+ a).
Proof. exists pre, ""%string. now rewrite append_nil_r. Qed.





Section FailureStatus.
Context `{Generated} `{Native}.


Lemma run_take_buffer (r : Reply) (buf : bytes) (w : World) :
  take_buffer r buf w =
  (Normal buf, mkWorld (heap w) (trace w ++ [buffer_release r])).
Proof. reflexivity. Qed.

Lemma throwErrors_world (s : Z) (buf : bytes) (w w0 : World) :
  throwErrors s buf w = (fst (throwErrors s buf w0), w).
Proof.
  unfold throwErrors. rewrite !run_bind.
  destruct (0 <? s).
  - destruct (Error_decode_details buf) as [e | d]; [reflexivity |].
    cbn [lift]. rewrite !run_ret. destruct (callStatusFromJSON s); reflexivity.
  - rewrite !run_ret. destruct (callStatusFromJSON s); reflexivity.
Qed.

(** The three wrappers, run on a native function: the call, the read of
    the out buffer, then the status. *)
Lemma run_methodArgsNoResult f p input (w : World) :
  let r := native (trace w) (Call f p input) in
  methodArgsNoResult (Some f) p input w =
    if outPtr r =? 0 then
      (Throw (mkExn TypeError "the out pointer is null"),
       mkWorld (heap w) (trace w ++ [Call f p input]))
    else if status r =? 0 then
      (Normal tt, mkWorld (heap w) (trace w ++ [Call f p input]))
    else
      (fst (throwErrors (status r) (if 0 <? status r then outBuf r else []) w),
       mkWorld (heap w)
         (trace w ++ Call f p input ::
            (if 0 <? status r then [buffer_release r] else []))).
Proof.
  intros r. unfold methodArgsNoResult. simpl callable.
  rewrite run_bind, run_ret, run_bind. unfold foreign at 1. fold r.
  rewrite run_bind. unfold toArrayBuffer.
  destruct (outPtr r =? 0); [reflexivity |]. rewrite run_ret.
  destruct (status r =? 0); cbn [negb]; [reflexivity |].
  rewrite run_bind.
  destruct (0 <? status r); rewrite ?run_take_buffer, ?run_ret;
    rewrite (throwErrors_world _ _ _ w); cbn [heap trace];
    rewrite <- ?app_assoc; reflexivity.
Qed.

Lemma run_createNewArgs f input (w : World) :
  let r := native (trace w) (New f input) in
  createNewArgs (Some f) input w =
    if outPtr r =? 0 then
      (Throw (mkExn TypeError "the out pointer is null"),
       mkWorld (heap w) (trace w ++ [New f input]))
    else if status r =? 0 then
      (Normal (instance r), mkWorld (heap w) (trace w ++ [New f input]))
    else
      (match fst (throwErrors (status r) (if 0 <? status r then outBuf r else []) w) with
       | Throw e => Throw e
       | _ => Stuck
       end,
       mkWorld (heap w)
         (trace w ++ New f input ::
            (if 0 <? status r then [buffer_release r] else []))).
Proof.
  intros r. unfold createNewArgs. simpl callable.
  rewrite run_bind, run_ret, run_bind. unfold foreign at 1. fold r.
  rewrite run_bind. unfold toArrayBuffer.
  destruct (outPtr r =? 0); [reflexivity |]. rewrite run_ret.
  destruct (status r =? 0); cbn [negb]; [reflexivity |].
  rewrite !run_bind.
  destruct (0 <? status r); rewrite ?run_take_buffer, ?run_ret;
    rewrite (throwErrors_world _ _ _ w);
    (lazymatch goal with |- context [fst (throwErrors ?s ?b w)] =>
       destruct (throwErrors_throws s b w) as [e ->] end);
    cbn [fst heap trace]; rewrite <- ?app_assoc; reflexivity.
Qed.

Lemma run_methodArgsResult {R} f p input (parser : bytes -> Exn + R) (w : World) :
  let r := native (trace w) (Call f p input) in
  methodArgsResult (Some f) p input parser w =
    if outPtr r =? 0 then
      (Throw (mkExn TypeError "the out pointer is null"),
       mkWorld (heap w) (trace w ++ [Call f p input]))
    else
      (match fst (throwErrors (status r) (if 0 <=? status r then outBuf r else []) w) with
       | Throw e => Throw e
       | _ => Stuck
       end,
       mkWorld (heap w)
         (trace w ++ Call f p input ::
            (if 0 <=? status r then [buffer_release r] else []))).
Proof.
  intros r. unfold methodArgsResult. simpl callable.
  rewrite run_bind, run_ret, run_bind. unfold foreign at 1. fold r.
  rewrite run_bind. unfold toArrayBuffer.
  destruct (outPtr r =? 0); [reflexivity |]. rewrite run_ret.
  rewrite run_bind.
  destruct (0 <=? status r); rewrite ?run_take_buffer, ?run_ret; rewrite run_bind;
    rewrite (throwErrors_world _ _ _ w);
    (lazymatch goal with |- context [fst (throwErrors ?s ?b w)] =>
       destruct (throwErrors_throws s b w) as [e ->] end);
    cbn [fst heap trace]; rewrite <- ?app_assoc; reflexivity.
Qed.

End FailureStatus.




(** What the caller sees at that input. *)
Example unknown_status_message :
  let G : Generated := sample_generated in
  let N : Native :=
    const_native (mkReply 77 0 4096 (String.list_byte_of_string "boom")) in
  fst (methodArgsNoResult (Some normalize) 1 (NormalizeParams 2) empty_world)
  = Throw (mkExn Error "Unknown error occurred, code: 77, details: boom").
Proof. vm_compute. reflexivity. Qed.

(** ** Handles as JS numbers *)

Lemma Number_exact (x : Z) : 0 <= x <= 2 ^ 53 -> Number x = x.
Proof.
  intros Hx.
  destruct (Z.eq_dec x (2 ^ 53)) as [-> | Hne]; [vm_compute; reflexivity |].
  assert (Hlt : x < 2 ^ 53) by lia.
  assert (Hbits : (Z.log2 (Z.abs x) + 1 <=? 53) = true).
  { apply Z.leb_le. rewrite Z.abs_eq by lia.
    destruct (Z.eq_dec x 0) as [-> | Hnz]; [vm_compute; discriminate |].
    assert (Z.log2 x < 53) by (apply Z.log2_lt_pow2; lia). lia. }
  unfold Number. cbv zeta. rewrite Hbits. reflexivity.
Qed.

(** A nonzero handle never reads as address 0. *)
Lemma Number_zero (x : Z) : 0 <= x -> Number x = 0 -> x = 0.
Proof.
  intros Hx. unfold Number. cbv zeta.
  destruct (Z.log2 (Z.abs x) + 1 <=? 53) eqn:Hbits; [auto |].
  apply Z.leb_gt in Hbits. rewrite Z.abs_eq in * by lia.
  intros Hz. exfalso.
  assert (Hpos : 0 < x).
  { destruct (Z.eq_dec x 0) as [-> | ?]; [vm_compute in Hbits; discriminate | lia]. }
  set (sh := Z.log2 x + 1 - 53) in *.
  assert (Hsh : 0 < sh) by (unfold sh; lia).
  assert (Hq : 0 < Z.shiftr x sh).
  { rewrite Z.shiftr_div_pow2 by lia.
    apply Z.div_str_pos. split; [apply Z.pow_pos_nonneg; lia |].
    transitivity (2 ^ Z.log2 x); [apply Z.pow_le_mono_r; unfold sh; lia |].
    apply Z.log2_spec; lia. }
  rewrite Z.sgn_pos in Hz by lia.
  rewrite Z.shiftl_mul_pow2 in Hz by lia.
  assert (0 < 2 ^ sh) by (apply Z.pow_pos_nonneg; lia).
  destruct ((Z.shiftl 1 (sh - 1) <? Z.land x (Z.ones sh))
            || (Z.land x (Z.ones sh) =? Z.shiftl 1 (sh - 1)) && Z.odd (Z.shiftr x sh));
    nia.
Qed.

(** C10 (amended).  For every handle from 0 up to 2^53, [getInstancePtr]
    returns the stored handle exactly. *)
Theorem getInstancePtr_exact_up_to_2_53 (this : ref) (o : Object) (w : World) :
  heap w !! this = Some o ->
  0 <= instancePtr o <= 2 ^ 53 ->
  getInstancePtr this w = (Normal (instancePtr o), w).
Proof.
  intros Hobj Hrange. unfold getInstancePtr, deref.
  rewrite run_bind, Hobj, run_ret. rewrite Number_exact by exact Hrange. reflexivity.
Qed.

Lemma getInstancePtr_exact_up_to_2_53_witness :
  getInstancePtr 0%nat (mkWorld [mkObject PipelineString (2 ^ 53) []] [])
  = (Normal (2 ^ 53), mkWorld [mkObject PipelineString (2 ^ 53) []] []).
Proof.
  apply (getInstancePtr_exact_up_to_2_53 0%nat (mkObject PipelineString (2 ^ 53) [])).
  - reflexivity.
  - simpl. lia.
Defined.

(** C10 (as stated, refuted).  A stored handle of 2^53 + 1 is read as 2^53:
    the conversion to a JS number is not lossless above 2^53. *)
Lemma getInstancePtr_rounds_above_2_53 :
  let w := mkWorld [mkObject PipelineString (2 ^ 53 + 1) []] [] in
  heap w !! 0%nat = Some (mkObject PipelineString (2 ^ 53 + 1) []) /\
  getInstancePtr 0%nat w = (Normal (2 ^ 53), w) /\
  getInstancePtr 0%nat w <> (Normal (2 ^ 53 + 1), w).
Proof.
  intros w. split; [reflexivity |]. split; [vm_compute; reflexivity |].
  vm_compute. discriminate.
Qed.

(** ** Constructor arguments *)

Section Constructors.
Context `{Generated} `{Native}.

(** C5 (amended).  An empty delimiter or replacement string is rejected at
    construction time by a plain [Error] with the message of the source,
    raised before any object is made and before anything crosses the
    boundary. *)
Theorem split_configuration_checked_locally (w : World) (prependScheme : Z)
    (split : bool) :
  pre_tokenizers.Delimiter [] w
    = (Throw (mkExn Error "delimiterChar must have a length of 1"), w) /\
  pre_tokenizers.Metaspace [] prependScheme split w
    = (Throw (mkExn Error "replacementChar must have a length of 1"), w).
Proof. split; reflexivity. Qed.

(** C6 (fails on the code).  The claim: [isRegex = false] configures a
    literal pattern, [isRegex = true] a regex.  The message that the [Split]
    constructor hands to the constructor of [PreTokenizer] is the opposite:
    with [isRegex = false] the pattern is in [regexSplit] and [stringSplit]
    is absent, with [isRegex = true] the pattern is in [stringSplit] and
    [regexSplit] is absent. *)
Theorem Split_isRegex_swapped (pattern : string) (behavior : Z) (invert : bool) :
  pre_tokenizers.Split_message pattern behavior invert false
    = mkSplit None (Some pattern) behavior invert /\
  pre_tokenizers.Split_message pattern behavior invert true
    = mkSplit (Some pattern) None behavior invert /\
  pre_tokenizers.Split pattern behavior invert false
    = pre_tokenizers.PreTokenizer_new PreTokenizer
        (PreTokenizerWrapper.split (mkSplit None (Some pattern) behavior invert)) /\
  pre_tokenizers.Split pattern behavior invert true
    = pre_tokenizers.PreTokenizer_new PreTokenizer
        (PreTokenizerWrapper.split (mkSplit (Some pattern) None behavior invert)).
Proof. repeat split. Qed.

End Constructors.

(** C5 (as stated, refuted).  The empty delimiter and the empty replacement
    string are rejected with a plain [Error], not a
    [PreTokenizationError]. *)
Lemma invalid_split_configuration_not_PreTokenizationError :
  let G : Generated := sample_generated in
  let N : Native := obliging_native "" in
  (exists e,
     fst (pre_tokenizers.Delimiter [] empty_world) = Throw e /\
     ename e = Error /\ ename e <> PreTokenizationError) /\
  (exists e,
     fst (pre_tokenizers.Metaspace [] 0 true empty_world) = Throw e /\
     ename e = Error /\ ename e <> PreTokenizationError).
Proof.
  intros G N.
  split; eexists; (split; [reflexivity |]); split; [reflexivity | discriminate | reflexivity | discriminate].
Qed.

(** At one input: the literal pattern "a.b" is handed over as a regex. *)
Example Split_literal_sent_as_regex :
  stringSplit (pre_tokenizers.Split_message "a.b" 0 false false) = None /\
  regexSplit (pre_tokenizers.Split_message "a.b" 0 false false) = Some "a.b"%string.
Proof. split; reflexivity. Qed.
(** ** Disposal *)

(** [freFunc()] of every class reads a property that the library object
    does not have. *)
Lemma freFunc_undefined (c : Class_) : freFunc c = None.
Proof. destruct c; reflexivity. Qed.

Lemma run_ForeignInstance_dispose (this : ref) (o : Object) (w : World) :
  heap w !! this = Some o ->
  ForeignInstance_dispose this w =
    if instancePtr o =? 0 then (Normal tt, w)
    else
      match freFunc (cls o) with
      | None => (Throw (mkExn TypeError "undefined is not a function"), w)
      | Some f =>
          (Normal tt,
           mkWorld (<[this := mkObject (cls o) 0 (children o)]> (heap w))
                   (trace w ++ [Free f (instancePtr o)]))
      end.
Proof.
  intros Hobj. unfold ForeignInstance_dispose, deref.
  rewrite run_bind, Hobj.
  destruct (instancePtr o =? 0); [reflexivity |].
  destruct (freFunc (cls o)) as [f |]; [| reflexivity].
  simpl callable. rewrite run_bind, run_ret, run_bind.
  unfold emit, set_instancePtr. cbn [heap trace]. rewrite Hobj. reflexivity.
Qed.

Lemma run_dispose_rec (fuel : nat) (this : ref) (o : Object) (w : World) :
  heap w !! this = Some o ->
  dispose_rec (S fuel) this w =
    if is_sequence (cls o) then
      (forEach (children o) (dispose_rec fuel);; ForeignInstance_dispose this) w
    else ForeignInstance_dispose this w.
Proof.
  intros Hobj. cbn [dispose_rec]. rewrite run_bind. unfold deref at 1.
  rewrite Hobj. destruct (cls o); reflexivity.
Qed.

(** Disposing a live [Tokenizer]: [freFunc()] reads [dylib.free_tokenizer],
    which is [undefined], so the call of its value raises; nothing is freed
    and the handle stays. *)
Lemma Tokenizer_dispose_raises (this : ref) (o : Object) (w : World) :
  heap w !! this = Some o ->
  cls o = Tokenizer ->
  instancePtr o <> 0 ->
  dispose this w = (Throw (mkExn TypeError "undefined is not a function"), w).
Proof.
  intros Hobj Hcls Hptr. unfold dispose.
  pose proof (lookup_lt_Some _ _ _ Hobj) as Hlt.
  destruct (length (heap w)) as [| fuel]; [lia |].
  rewrite (run_dispose_rec fuel this o w Hobj), Hcls. cbn [is_sequence].
  rewrite (run_ForeignInstance_dispose this o w Hobj), Hcls.
  apply Z.eqb_neq in Hptr. rewrite Hptr. reflexivity.
Qed.

(** C3 (fails on the code).  The claim: [dispose()] on a Tokenizer with a
    nonzero handle calls [free_tokenizer_wrapper] on the handle and then
    zeroes it.  The code: [Tokenizer.freFunc] returns [dylib.free_tokenizer],
    a property that the library object does not have, under a name that the
    symbol table does not declare either (it declares
    [free_tokenizer_wrapper]); [dispose()] raises a [TypeError], the trace
    gains no call and the object keeps its handle. *)
Theorem Tokenizer_dispose_frees_nothing (this : ref) (o : Object) (w : World) :
  heap w !! this = Some o ->
  cls o = Tokenizer ->
  instancePtr o <> 0 ->
  fst (dispose this w) = Throw (mkExn TypeError "undefined is not a function") /\
  trace (snd (dispose this w)) = trace w /\
  heap (snd (dispose this w)) !! this = Some o /\
  dylib "free_tokenizer" = None /\
  dylib_symbols "free_tokenizer" = None /\
  dylib_symbols "free_tokenizer_wrapper" = Some free_tokenizer_wrapper.
Proof.
  intros Hobj Hcls Hptr.
  rewrite (Tokenizer_dispose_raises this o w Hobj Hcls Hptr).
  repeat split; assumption.
Qed.

Lemma Tokenizer_dispose_frees_nothing_witness :
  let w := mkWorld [mkObject Tokenizer 5 []]
             [New tokenizer_from_file (TokenizerFromFile "tokenizer.json")] in
  fst (dispose 0%nat w) = Throw (mkExn TypeError "undefined is not a function") /\
  trace (snd (dispose 0%nat w)) = trace w /\
  heap (snd (dispose 0%nat w)) !! 0%nat = Some (mkObject Tokenizer 5 []) /\
  dylib "free_tokenizer" = None /\
  dylib_symbols "free_tokenizer" = None /\
  dylib_symbols "free_tokenizer_wrapper" = Some free_tokenizer_wrapper.
Proof.
  intros w.
  apply (Tokenizer_dispose_frees_nothing 0%nat (mkObject Tokenizer 5 []) w).
  - reflexivity.
  - reflexivity.
  - simpl. lia.
Defined.

(** C8 (fails on the code, same defect as C3).  The claim: a second
    [dispose()] on any instance does not raise.  On a Tokenizer with a
    nonzero handle the first [dispose()] raises and changes nothing, and so
    does the second. *)
Theorem Tokenizer_dispose_twice_raises (this : ref) (o : Object) (w : World) :
  heap w !! this = Some o ->
  cls o = Tokenizer ->
  instancePtr o <> 0 ->
  let w1 := snd (dispose this w) in
  dispose this w1 = (Throw (mkExn TypeError "undefined is not a function"), w1).
Proof.
  intros Hobj Hcls Hptr w1. subst w1.
  rewrite (Tokenizer_dispose_raises this o w Hobj Hcls Hptr). cbn [snd].
  exact (Tokenizer_dispose_raises this o w Hobj Hcls Hptr).
Qed.

Lemma Tokenizer_dispose_twice_raises_witness :
  let w := mkWorld [mkObject Tokenizer 5 []]
             [New tokenizer_from_file (TokenizerFromFile "tokenizer.json")] in
  dispose 0%nat (snd (dispose 0%nat w))
  = (Throw (mkExn TypeError "undefined is not a function"), snd (dispose 0%nat w)).
Proof.
  intros w.
  apply (Tokenizer_dispose_twice_raises 0%nat (mkObject Tokenizer 5 []) w).
  - reflexivity.
  - reflexivity.
  - simpl. lia.
Defined.

(** *** Disposing an instance that has been disposed *)

Lemma zeroed_refl (h : list Object) : zeroed h h.
Proof. split; [reflexivity |]. intros r o Hr. exists o. auto. Qed.

Lemma zeroed_trans (h1 h2 h3 : list Object) :
  zeroed h1 h2 -> zeroed h2 h3 -> zeroed h1 h3.
Proof.
  intros [L12 H12] [L23 H23]. split; [congruence |].
  intros r o Hr.
  destruct (H12 r o Hr) as (o2 & Hr2 & Hc2 & Hk2 & Hp2).
  destruct (H23 r o2 Hr2) as (o3 & Hr3 & Hc3 & Hk3 & Hp3).
  exists o3. repeat split; [assumption | congruence | congruence |].
  destruct Hp3 as [Hp3 | Hp3]; [| now right].
  rewrite Hp3. exact Hp2.
Qed.

Lemma zeroed_insert (h : list Object) (this : ref) (o : Object) :
  h !! this = Some o ->
  zeroed h (<[this := mkObject (cls o) 0 (children o)]> h).
Proof.
  intros Hobj. split; [apply length_insert |].
  intros r o' Hr. destruct (decide (r = this)) as [Heq | Hne].
  - subst r. rewrite Hobj in Hr. injection Hr as <-.
    eexists. split; [apply list_lookup_insert_eq; eapply lookup_lt_Some; eassumption |].
    cbn. auto.
  - exists o'. rewrite list_lookup_insert_ne by congruence. auto.
Qed.

Lemma ForeignInstance_dispose_zeroed (this : ref) (w : World) c w' :
  ForeignInstance_dispose this w = (c, w') -> zeroed (heap w) (heap w').
Proof.
  destruct (heap w !! this) as [o |] eqn:Hobj.
  - rewrite (run_ForeignInstance_dispose this o w Hobj).
    destruct (instancePtr o =? 0).
    + intros [= <- <-]. apply zeroed_refl.
    + destruct (freFunc (cls o)); intros [= <- <-]; cbn [heap].
      * now apply zeroed_insert.
      * apply zeroed_refl.
  - unfold ForeignInstance_dispose, deref. rewrite run_bind, Hobj.
    intros [= <- <-]. apply zeroed_refl.
Qed.

Lemma forEach_zeroed {A} (f : A -> M unit) (l : list A) :
  (forall a w c w', f a w = (c, w') -> zeroed (heap w) (heap w')) ->
  forall w c w', forEach l f w = (c, w') -> zeroed (heap w) (heap w').
Proof.
  intros Hf. induction l as [| a l IH]; intros w c w'.
  - intros [= <- <-]. apply zeroed_refl.
  - cbn [forEach]. rewrite run_bind.
    destruct (f a w) as [[[] | e |] w1] eqn:Ha.
    + intros Hrest. eapply zeroed_trans; [eapply Hf; eassumption | eapply IH; eassumption].
    + intros [= <- <-]. eapply Hf; eassumption.
    + intros [= <- <-]. eapply Hf; eassumption.
Qed.

Lemma dispose_rec_zeroed (fuel : nat) (this : ref) (w : World) c w' :
  dispose_rec fuel this w = (c, w') -> zeroed (heap w) (heap w').
Proof.
  revert this w c w'. induction fuel as [| fuel IH]; intros this w c w'.
  - intros [= <- <-]. apply zeroed_refl.
  - destruct (heap w !! this) as [o |] eqn:Hobj.
    + rewrite (run_dispose_rec fuel this o w Hobj).
      destruct (is_sequence (cls o)); [| apply ForeignInstance_dispose_zeroed].
      rewrite run_bind.
      destruct (forEach (children o) (dispose_rec fuel) w) as [[[] | e |] w1] eqn:Hkids.
      * intros Hself. eapply zeroed_trans.
        -- eapply forEach_zeroed; [| eassumption]. intros; eapply IH; eassumption.
        -- eapply ForeignInstance_dispose_zeroed; eassumption.
      * intros [= <- <-]. eapply forEach_zeroed; [| eassumption]. intros; eapply IH; eassumption.
      * intros [= <- <-]. eapply forEach_zeroed; [| eassumption]. intros; eapply IH; eassumption.
    + cbn [dispose_rec]. rewrite run_bind. unfold deref. rewrite Hobj.
      intros [= <- <-]. apply zeroed_refl.
Qed.

Lemma released_mono (n : nat) (h h' : list Object) (r : ref) :
  zeroed h h' -> released n h r -> released n h' r.
Proof.
  intros Hz. revert r. induction n as [| n IH]; intros r; [easy |].
  cbn [released]. intros (o & Hobj & Hptr & Hkids).
  destruct (proj2 Hz r o Hobj) as (o' & Hobj' & Hcls & Hch & Hp).
  exists o'. split; [assumption |]. split; [destruct Hp; congruence |].
  rewrite Hcls, Hch. intros Hseq. eapply Forall_impl; [exact (Hkids Hseq) |].
  intros c. apply IH.
Qed.

Lemma forEach_noop {A} (f : A -> M unit) (l : list A) (w : World) :
  Forall (fun a => f a w = (Normal tt, w)) l ->
  forEach l f w = (Normal tt, w).
Proof.
  induction 1 as [| a l Ha _ IH]; [reflexivity |].
  cbn [forEach]. rewrite run_bind, Ha. exact IH.
Qed.

(** On a released instance [dispose] does nothing. *)
Lemma released_noop (n : nat) (w : World) (r : ref) :
  released n (heap w) r -> dispose_rec n r w = (Normal tt, w).
Proof.
  revert r. induction n as [| n IH]; intros r; [easy |].
  cbn [released]. intros (o & Hobj & Hptr & Hkids).
  rewrite (run_dispose_rec n r o w Hobj).
  assert (Hself : ForeignInstance_dispose r w = (Normal tt, w)).
  { rewrite (run_ForeignInstance_dispose r o w Hobj), Hptr. reflexivity. }
  destruct (is_sequence (cls o)); [| exact Hself].
  rewrite run_bind, forEach_noop; [exact Hself |].
  eapply Forall_impl; [exact (Hkids eq_refl) |]. intros c. apply IH.
Qed.

Lemma forEach_released (n : nat) (l : list ref) :
  (forall r w w', dispose_rec n r w = (Normal tt, w') -> released n (heap w') r) ->
  forall w w', forEach l (dispose_rec n) w = (Normal tt, w') ->
               Forall (released n (heap w')) l.
Proof.
  intros Hn. induction l as [| a l IH]; intros w w'; [constructor |].
  cbn [forEach]. rewrite run_bind.
  destruct (dispose_rec n a w) as [[[] | e |] w1] eqn:Ha; try discriminate.
  intros Hrest. constructor; [| eapply IH; eassumption].
  eapply released_mono; [| eapply Hn; eassumption].
  eapply forEach_zeroed; [| eassumption].
  intros; eapply dispose_rec_zeroed; eassumption.
Qed.

Lemma ForeignInstance_dispose_normal (this : ref) (w w' : World) :
  ForeignInstance_dispose this w = (Normal tt, w') ->
  exists o o', heap w !! this = Some o /\ heap w' !! this = Some o' /\
               instancePtr o' = 0 /\ cls o' = cls o /\ children o' = children o.
Proof.
  destruct (heap w !! this) as [o |] eqn:Hobj.
  - rewrite (run_ForeignInstance_dispose this o w Hobj).
    destruct (instancePtr o =? 0) eqn:Hptr.
    + intros [= <-]. apply Z.eqb_eq in Hptr. exists o, o. auto.
    + destruct (freFunc (cls o)); [| discriminate].
      intros [= <-]. cbn [heap]. eexists o, _. split; [reflexivity |].
      split; [apply list_lookup_insert_eq; eapply lookup_lt_Some; eassumption |].
      cbn. auto.
  - unfold ForeignInstance_dispose, deref. rewrite run_bind, Hobj. discriminate.
Qed.

(** After a [dispose] that returned, the instance is released. *)
Lemma dispose_rec_released (n : nat) (r : ref) (w w' : World) :
  dispose_rec n r w = (Normal tt, w') -> released n (heap w') r.
Proof.
  revert r w w'. induction n as [| n IH]; intros r w w'; [discriminate |].
  destruct (heap w !! r) as [o |] eqn:Hobj.
  - rewrite (run_dispose_rec n r o w Hobj).
    destruct (is_sequence (cls o)) eqn:Hseq.
    + rewrite run_bind.
      destruct (forEach (children o) (dispose_rec n) w) as [[[] | e |] w1] eqn:Hkids;
        try discriminate.
      intros Hself.
      pose proof (forEach_released n (children o) IH w w1 Hkids) as Hrel.
      assert (Hz1 : zeroed (heap w) (heap w1)).
      { eapply forEach_zeroed; [| eassumption].
        intros; eapply dispose_rec_zeroed; eassumption. }
      pose proof (ForeignInstance_dispose_zeroed r w1 _ w' Hself) as Hz2.
      destruct (ForeignInstance_dispose_normal r w1 w' Hself)
        as (o1 & o' & Ho1 & Ho' & Hp' & Hc' & Hk').
      destruct (proj2 Hz1 r o Hobj) as (o1' & Ho1' & Hc1 & Hk1 & _).
      rewrite Ho1 in Ho1'. injection Ho1' as <-.
      cbn [released]. exists o'. split; [assumption |]. split; [assumption |].
      intros _. rewrite Hk', Hk1.
      eapply Forall_impl; [exact Hrel |]. intros c. now apply released_mono.
    + intros Hself.
      destruct (ForeignInstance_dispose_normal r w w' Hself)
        as (o1 & o' & Ho1 & Ho' & Hp' & Hc' & Hk').
      rewrite Hobj in Ho1. injection Ho1 as <-.
      cbn [released]. exists o'. split; [assumption |]. split; [assumption |].
      rewrite Hc', Hseq. discriminate.
  - cbn [dispose_rec]. rewrite run_bind. unfold deref. rewrite Hobj. discriminate.
Qed.

(** Once [dispose()] has returned on an instance (a Sequence included),
    calling it again returns without raising, calls no native function and
    leaves every handle as it is. *)
Lemma dispose_again_noop (this : ref) (w w' : World) :
  dispose this w = (Normal tt, w') ->
  dispose this w' = (Normal tt, w').
Proof.
  unfold dispose. intros Hfirst.
  pose proof (dispose_rec_released _ _ _ _ Hfirst) as Hrel.
  pose proof (dispose_rec_zeroed _ _ _ _ _ Hfirst) as [Hlen _].
  rewrite Hlen. now apply released_noop.
Qed.

(** Two disposals of a released Sequence of two released children. *)
Example Sequence_disposed_twice :
  let w := mkWorld [mkObject Normalizer 0 []; mkObject Normalizer 0 [];
                    mkObject NormalizerSequence 0 [0%nat; 1%nat]] [] in
  (dispose 2%nat;; dispose 2%nat) w = (Normal tt, w).
Proof. vm_compute. reflexivity. Qed.
(** ** Use after release *)

Section UseAfterRelease.
Context `{Generated} `{Native}.

(** The four guarded methods raise [ObjectDisposed] on a zero handle and
    touch nothing. *)
Lemma normalize_disposed (this p : ref) (o : Object) (w : World) :
  heap w !! this = Some o -> instancePtr o = 0 ->
  normalizers.normalize this p w = (Throw (mkExn ObjectDisposed ""), w).
Proof.
  intros Hobj Hptr. unfold normalizers.normalize, deref.
  rewrite run_bind, Hobj, Hptr. reflexivity.
Qed.

Lemma preTokenize_disposed (this p : ref) (o : Object) (w : World) :
  heap w !! this = Some o -> instancePtr o = 0 ->
  pre_tokenizers.preTokenize this p w = (Throw (mkExn ObjectDisposed ""), w).
Proof.
  intros Hobj Hptr. unfold pre_tokenizers.preTokenize, deref.
  rewrite run_bind, Hobj, Hptr. reflexivity.
Qed.

Lemma decode_disposed (this : ref) ids skip (o : Object) (w : World) :
  heap w !! this = Some o -> instancePtr o = 0 ->
  tokenizer.decode this ids skip w = (Throw (mkExn ObjectDisposed ""), w).
Proof.
  intros Hobj Hptr. unfold tokenizer.decode, deref.
  rewrite run_bind, Hobj, Hptr. reflexivity.
Qed.

Lemma encode_disposed (this : ref) x ast i2 f1 f2 f3 f4 f5 f6 f7 (o : Object) (w : World) :
  heap w !! this = Some o -> instancePtr o = 0 ->
  tokenizer.encode this x ast i2 f1 f2 f3 f4 f5 f6 f7 w
  = (Throw (mkExn ObjectDisposed ""), w).
Proof.
  intros Hobj Hptr. unfold tokenizer.encode, deref.
  rewrite run_bind, Hobj, Hptr. reflexivity.
Qed.

(** [getSplits] has no such test: on a zero handle it is the wrapper call
    with handle 0. *)
Lemma getSplits_unguarded (this : ref) (o : Object) (rf ty : Z) (io : bool) (w : World) :
  heap w !! this = Some o ->
  pipeline_string.getSplits this rf ty io w
  = (r ← methodArgsResult (dylib "get_splits") (instancePtr o)
           (SplitParams rf ty io) SplitResult_decode;
     pipeline_string.getSplits_loop r io 0 (tokens r) []) w.
Proof.
  intros Hobj. unfold pipeline_string.getSplits, deref.
  rewrite run_bind, Hobj. reflexivity.
Qed.

End UseAfterRelease.

(** C2 (fails on the code).  The claim: every operation on a released
    instance raises [ObjectDisposed] before any call crosses the boundary.
    [normalize], [preTokenize], [decode] and [encode] test the handle and
    raise [ObjectDisposed]; [getSplits] has no such test: on a released
    PipelineString it goes on to the call wrapper with handle 0, and the
    error that reaches the caller is a [TypeError], not [ObjectDisposed]. *)
Theorem getSplits_on_released_not_ObjectDisposed `{Generated} `{Native}
    (this : ref) (o : Object) (rf ty : Z) (io : bool) (w : World) :
  heap w !! this = Some o ->
  instancePtr o = 0 ->
  (pipeline_string.getSplits this rf ty io w
   = (r ← methodArgsResult (dylib "get_splits") 0 (SplitParams rf ty io)
            SplitResult_decode;
      pipeline_string.getSplits_loop r io 0 (tokens r) []) w) /\
  (exists e,
     pipeline_string.getSplits this rf ty io w = (Throw e, w) /\
     ename e = TypeError /\ ename e <> ObjectDisposed) /\
  (forall p, normalizers.normalize this p w = (Throw (mkExn ObjectDisposed ""), w)) /\
  (forall p, pre_tokenizers.preTokenize this p w = (Throw (mkExn ObjectDisposed ""), w)) /\
  (forall ids skip,
     tokenizer.decode this ids skip w = (Throw (mkExn ObjectDisposed ""), w)) /\
  (forall x ast i2 f1 f2 f3 f4 f5 f6 f7,
     tokenizer.encode this x ast i2 f1 f2 f3 f4 f5 f6 f7 w
     = (Throw (mkExn ObjectDisposed ""), w)).
Proof.
  intros Hobj Hptr. split; [| split; [| split; [| split; [| split]]]].
  - rewrite (getSplits_unguarded this o rf ty io w Hobj), Hptr. reflexivity.
  - exists (mkExn TypeError "undefined is not a function").
    split; [| split; [reflexivity | discriminate]].
    rewrite (getSplits_unguarded this o rf ty io w Hobj). reflexivity.
  - intros p. exact (normalize_disposed this p o w Hobj Hptr).
  - intros p. exact (preTokenize_disposed this p o w Hobj Hptr).
  - intros ids skip. exact (decode_disposed this ids skip o w Hobj Hptr).
  - intros x ast i2 f1 f2 f3 f4 f5 f6 f7.
    exact (encode_disposed this x ast i2 f1 f2 f3 f4 f5 f6 f7 o w Hobj Hptr).
Qed.

Lemma getSplits_on_released_not_ObjectDisposed_witness :
  let G : Generated := sample_generated in
  let N : Native := obliging_native "" in
  let w := mkWorld [mkObject PipelineString 0 []] [] in
  exists e,
    pipeline_string.getSplits 0%nat 0 0 false w = (Throw e, w) /\
    ename e = TypeError /\ ename e <> ObjectDisposed.
Proof.
  intros G N w.
  apply (@getSplits_on_released_not_ObjectDisposed G N 0%nat
           (mkObject PipelineString 0 []) 0 0 false w).
  - reflexivity.
  - reflexivity.
Defined.

(** The run at that input. *)
Example getSplits_on_disposed_pipeline_string :
  let G : Generated := sample_generated in
  let N : Native := obliging_native "" in
  let w := mkWorld [mkObject PipelineString 0 []] [] in
  pipeline_string.getSplits 0%nat 0 0 false w
  = (Throw (mkExn TypeError "undefined is not a function"), w).
Proof. vm_compute. reflexivity. Qed.
(** ** Construction of a Sequence *)

Lemma frees_app (a b : list Event) : frees (a ++ b) = frees a ++ frees b.
Proof. apply omap_app. Qed.

Lemma quiet_ret {A} (a : A) : quiet (mret a).
Proof. intros w c w' [= <- <-]. auto. Qed.

Lemma quiet_throw {A} cl msg : quiet (@throw A cl msg).
Proof. intros w c w' [= <- <-]. auto. Qed.

Lemma quiet_lift {A} (r : Exn + A) : quiet (lift r).
Proof. destruct r; intros w c w' [= <- <-]; auto. Qed.

Lemma quiet_bind {A B} (m : M A) (k : A -> M B) :
  quiet m -> (forall a, quiet (k a)) -> quiet (m ≫= k).
Proof.
  intros Hm Hk w c w'. rewrite run_bind.
  destruct (m w) as [[a | e |] w1] eqn:Em.
  - intros Ek. destruct (Hm _ _ _ Em) as [Hh Hf].
    destruct (Hk a _ _ _ Ek) as [Hh' Hf']. split; congruence.
  - intros [= <- <-]. exact (Hm _ _ _ Em).
  - intros [= <- <-]. exact (Hm _ _ _ Em).
Qed.

Lemma quiet_deref (r : ref) : quiet (deref r).
Proof.
  intros w c w'. unfold deref. destruct (heap w !! r); intros [= <- <-]; auto.
Qed.

Lemma quiet_callable (f : option Symbol) : quiet (callable f).
Proof. destruct f; [apply quiet_ret | apply quiet_throw]. Qed.

Lemma quiet_getInstancePtr (r : ref) : quiet (getInstancePtr r).
Proof.
  apply quiet_bind; [apply quiet_deref | intros; apply quiet_ret].
Qed.

Create HintDb quiet.
#[local] Hint Resolve quiet_ret quiet_throw quiet_lift quiet_deref quiet_callable
  quiet_getInstancePtr : quiet.

Section SequenceConstruction.
Context `{Generated} `{Native}.

Lemma quiet_foreign_New f input : quiet (foreign (New f input)).
Proof.
  intros w c w' [= <- <-]. cbn [heap trace]. split; [reflexivity |].
  rewrite frees_app. cbn. apply app_nil_r.
Qed.

Lemma quiet_toArrayBuffer (r : Reply) : quiet (toArrayBuffer r).
Proof.
  unfold toArrayBuffer. destruct (outPtr r =? 0); auto with quiet.
Qed.

Lemma quiet_take_buffer (r : Reply) (buf : bytes) : quiet (take_buffer r buf).
Proof.
  intros w c w'. rewrite run_take_buffer. intros [= <- <-]. cbn [heap trace].
  split; [reflexivity |]. rewrite frees_app.
  unfold buffer_release. destruct isDeno; cbn; apply app_nil_r.
Qed.

Lemma quiet_throwErrors s buf : quiet (throwErrors s buf).
Proof.
  intros w c w' Hrun. destruct (throwErrors_throws s buf w) as [e He].
  rewrite He in Hrun. injection Hrun as <- <-. auto.
Qed.

Lemma quiet_createNewArgs func input : quiet (createNewArgs func input).
Proof.
  unfold createNewArgs.
  apply quiet_bind; [auto with quiet | intros f].
  apply quiet_bind; [apply quiet_foreign_New | intros r].
  apply quiet_bind; [apply quiet_toArrayBuffer | intros outBufArray].
  apply quiet_bind; [| auto with quiet].
  destruct (negb (status r =? 0)); [| auto with quiet].
  apply quiet_bind; [| intros; apply quiet_throwErrors].
  destruct (0 <? status r); [apply quiet_take_buffer | auto with quiet].
Qed.

Lemma quiet_normalizers_addresses (cs : list ref) i acc :
  quiet (normalizers.Sequence_addresses cs i acc).
Proof.
  revert i acc. induction cs as [| c cs IH]; intros i acc; cbn; [auto with quiet |].
  apply quiet_bind; [auto with quiet | intros address].
  destruct (address =? 0); [auto with quiet | apply IH].
Qed.

Lemma quiet_pre_tokenizers_addresses (cs : list ref) i acc :
  quiet (pre_tokenizers.Sequence_addresses cs i acc).
Proof.
  revert i acc. induction cs as [| c cs IH]; intros i acc; cbn; [auto with quiet |].
  apply quiet_bind; [auto with quiet | intros address].
  destruct (address =? 0); [auto with quiet | apply IH].
Qed.

(** The shape shared by the constructors of [Normalizer] and
    [PreTokenizer]: allocate, create the native instance, store the handle.
    The new object sits past every object of the old store. *)
Lemma new_wrapper_spec (cl : Class_) func input (w : World) c w' :
  (this ← ForeignInstance_new cl;
   p ← createNewArgs func input;
   set_instancePtr this p;; mret this) w = (c, w') ->
  frees (trace w') = frees (trace w) /\
  (forall r o, heap w !! r = Some o -> heap w' !! r = Some o) /\
  (forall this, c = Normal this -> this = length (heap w)).
Proof.
  rewrite run_bind. unfold ForeignInstance_new, alloc. cbv beta iota.
  set (w0 := mkWorld (heap w ++ [mkObject cl 0 []]) (trace w)).
  rewrite run_bind.
  destruct (createNewArgs func input w0) as [[p | e |] w1] eqn:Ecreate;
    destruct (quiet_createNewArgs func input _ _ _ Ecreate) as [Hh Hf];
    subst w0; cbn [heap trace] in Hh, Hf.
  - rewrite run_bind. unfold set_instancePtr. rewrite Hh.
    rewrite lookup_app_r by reflexivity. rewrite Nat.sub_diag. cbn [lookup list_lookup].
    rewrite run_ret. intros [= <- <-]. cbn [heap trace].
    split; [assumption |]. split; [| now intros this [= <-]].
    intros r o Hr. pose proof (lookup_lt_Some _ _ _ Hr) as Hlt.
    rewrite list_lookup_insert_ne by lia. now apply lookup_app_l_Some.
  - intros [= <- <-]. split; [assumption |]. split; [| discriminate].
    intros r o Hr. rewrite Hh. now apply lookup_app_l_Some.
  - intros [= <- <-]. split; [assumption |]. split; [| discriminate].
    intros r o Hr. rewrite Hh. now apply lookup_app_l_Some.
Qed.

(** The rest of a Sequence constructor, after the addresses are read. *)
Lemma sequence_tail_constructs (m : M ref) (cs : list ref) (w : World) c w' :
  (forall w c w', m w = (c, w') ->
     frees (trace w') = frees (trace w) /\
     (forall r o, heap w !! r = Some o -> heap w' !! r = Some o) /\
     (forall this, c = Normal this -> this = length (heap w))) ->
  (this ← m; set_children this cs;; mret this) w = (c, w') ->
  frees (trace w') = frees (trace w) /\
  (forall r o, heap w !! r = Some o -> heap w' !! r = Some o).
Proof.
  intros Hm. rewrite run_bind.
  destruct (m w) as [[this | e |] w1] eqn:Em;
    destruct (Hm _ _ _ Em) as (Hf & Hkeep & Hthis).
  - rewrite run_bind. unfold set_children.
    destruct (heap w1 !! this) as [o1 |]; [| intros [= <- <-]; auto].
    rewrite run_ret. intros [= <- <-]. cbn [heap trace]. split; [assumption |].
    intros r o Hr. pose proof (lookup_lt_Some _ _ _ Hr) as Hlt.
    rewrite (Hthis this eq_refl). rewrite list_lookup_insert_ne by lia. auto.
  - intros [= <- <-]. auto.
  - intros [= <- <-]. auto.
Qed.

Lemma normalizers_Sequence_constructs (cs : list ref) :
  constructs (normalizers.Sequence cs).
Proof.
  intros w c w'. unfold normalizers.Sequence. rewrite run_bind.
  destruct (normalizers.Sequence_addresses cs 0 [] w) as [[addresses | e |] w1] eqn:Ea;
    destruct (quiet_normalizers_addresses cs 0 [] _ _ _ Ea) as [Hh Hf].
  - intros Hrest.
    destruct (sequence_tail_constructs
                (normalizers.Normalizer_new NormalizerSequence
                   (NormalizerWrapper.sequence addresses)) cs w1 c w') as [Hf' Hk'].
    + intros; eapply new_wrapper_spec; eassumption.
    + exact Hrest.
    + split; [congruence |]. intros r o Hr. apply Hk'. now rewrite Hh.
  - intros [= <- <-]. split; [assumption |]. intros r o Hr. now rewrite Hh.
  - intros [= <- <-]. split; [assumption |]. intros r o Hr. now rewrite Hh.
Qed.

Lemma pre_tokenizers_Sequence_constructs (cs : list ref) :
  constructs (pre_tokenizers.Sequence cs).
Proof.
  intros w c w'. unfold pre_tokenizers.Sequence. rewrite run_bind.
  destruct (pre_tokenizers.Sequence_addresses cs 0 [] w) as [[addresses | e |] w1] eqn:Ea;
    destruct (quiet_pre_tokenizers_addresses cs 0 [] _ _ _ Ea) as [Hh Hf].
  - intros Hrest.
    destruct (sequence_tail_constructs
                (pre_tokenizers.PreTokenizer_new PreTokenizerSequence
                   (PreTokenizerWrapper.sequence addresses)) cs w1 c w') as [Hf' Hk'].
    + intros; eapply new_wrapper_spec; eassumption.
    + exact Hrest.
    + split; [congruence |]. intros r o Hr. apply Hk'. now rewrite Hh.
  - intros [= <- <-]. split; [assumption |]. intros r o Hr. now rewrite Hh.
  - intros [= <- <-]. split; [assumption |]. intros r o Hr. now rewrite Hh.
Qed.

End SequenceConstruction.

(** C4 (amended).  When the construction of a Sequence (of normalizers or
    of pre-tokenizers) fails, the constructor has released nothing: no
    native free function was called and every object that existed before,
    the children among them, still holds the handle it had. *)
Theorem Sequence_failure_releases_nothing `{Generated} `{Native} (cs : list ref)
    (w : World) (e : Exn) (w' : World) :
  normalizers.Sequence cs w = (Throw e, w') \/
  pre_tokenizers.Sequence cs w = (Throw e, w') ->
  frees (trace w') = frees (trace w) /\
  (forall r o, heap w !! r = Some o -> heap w' !! r = Some o).
Proof.
  intros [Hfail | Hfail].
  - exact (normalizers_Sequence_constructs cs _ _ _ Hfail).
  - exact (pre_tokenizers_Sequence_constructs cs _ _ _ Hfail).
Qed.

Lemma Sequence_failure_releases_nothing_witness :
  let G : Generated := sample_generated in
  let N : Native := obliging_native "" in
  let w := mkWorld [mkObject Normalizer 7 []] [] in
  let w' := mkWorld [mkObject Normalizer 7 []; mkObject NormalizerSequence 0 []] [] in
  frees (trace w') = frees (trace w) /\
  (forall r o, heap w !! r = Some o -> heap w' !! r = Some o).
Proof.
  intros G N w w'.
  apply (@Sequence_failure_releases_nothing G N [0]%nat w
           (mkExn TypeError "undefined is not a function") w').
  left. vm_compute. reflexivity.
Defined.

(** C4 (as stated, refuted).  Of two normalizers the first holds handle 1
    and the second has been released; a Sequence over both fails with
    [ObjectDisposed] at index 1.  The first child is not released by the
    failed construction: its handle was never passed to a free function and
    it still holds it. *)
Lemma Sequence_failed_construction_child_not_released :
  let G : Generated := sample_generated in
  let N : Native := obliging_native "" in
  let w := mkWorld [mkObject Normalizer 1 []; mkObject Normalizer 0 []] [] in
  let run := normalizers.Sequence [0; 1]%nat w in
  fst run = Throw (mkExn ObjectDisposed "The normalizer at index [1] is disposed") /\
  heap (snd run) !! 0%nat = Some (mkObject Normalizer 1 []) /\
  times_freed 1 (trace (snd run)) = 0%nat /\
  times_freed 1 (trace (snd run)) <> 1%nat.
Proof. intros G N w run. vm_compute. repeat split. discriminate. Qed.

(** The other failure named by the claim, the creation of the native
    wrapper: the constructor of [Normalizer] raises after the Sequence
    object was made.  Again no free function is called and the child keeps
    its handle. *)
Example Sequence_wrapper_creation_fails :
  let G : Generated := sample_generated in
  let N : Native := obliging_native "" in
  normalizers.Sequence [0]%nat (mkWorld [mkObject Normalizer 7 []] [])
  = (Throw (mkExn TypeError "undefined is not a function"),
     mkWorld [mkObject Normalizer 7 []; mkObject NormalizerSequence 0 []] []).
Proof. vm_compute. reflexivity. Qed.
(** ** The recursion budget of [dispose] is enough *)

Lemma wf_heap_zeroed (h h' : list Object) :
  wf_heap h -> zeroed h h' -> wf_heap h'.
Proof.
  intros Hwf [Hlen Hz] r o' Hr'.
  pose proof (lookup_lt_Some _ _ _ Hr') as Hlt. rewrite Hlen in Hlt.
  destruct (lookup_lt_is_Some_2 h r Hlt) as [o Hr].
  destruct (Hz r o Hr) as (o'' & Hr'' & _ & Hk & _).
  rewrite Hr' in Hr''. injection Hr'' as <-. rewrite Hk. exact (Hwf r o Hr).
Qed.

Lemma ForeignInstance_dispose_not_stuck (this : ref) (w : World) :
  (this < length (heap w))%nat ->
  fst (ForeignInstance_dispose this w) <> Stuck.
Proof.
  intros Hlt. destruct (lookup_lt_is_Some_2 _ _ Hlt) as [o Hobj].
  rewrite (run_ForeignInstance_dispose this o w Hobj).
  destruct (instancePtr o =? 0); [discriminate |].
  destruct (freFunc (cls o)); discriminate.
Qed.

Lemma forEach_not_stuck (n : nat) (l : list ref) :
  (forall r w, wf_heap (heap w) -> (r < n)%nat -> (r < length (heap w))%nat ->
               fst (dispose_rec n r w) <> Stuck) ->
  forall w, wf_heap (heap w) ->
    Forall (fun c => (c < n)%nat /\ (c < length (heap w))%nat) l ->
    fst (forEach l (dispose_rec n) w) <> Stuck.
Proof.
  intros Hn. induction l as [| a l IH]; intros w Hwf Hall; [discriminate |].
  inversion Hall as [| ? ? [Han Hal] Hall']; subst.
  cbn [forEach]. rewrite run_bind.
  destruct (dispose_rec n a w) as [[[] | e |] w1] eqn:Ha.
  - pose proof (dispose_rec_zeroed _ _ _ _ _ Ha) as Hz.
    apply IH; [eapply wf_heap_zeroed; eassumption |].
    eapply Forall_impl; [exact Hall' |]. intros c [? ?].
    split; [assumption |]. rewrite (proj1 Hz). assumption.
  - discriminate.
  - exfalso. apply (Hn a w Hwf Han Hal). rewrite Ha. reflexivity.
Qed.

Lemma dispose_rec_not_stuck (n : nat) (r : ref) (w : World) :
  wf_heap (heap w) -> (r < n)%nat -> (r < length (heap w))%nat ->
  fst (dispose_rec n r w) <> Stuck.
Proof.
  revert r w. induction n as [| n IH]; intros r w Hwf Hrn Hlt; [lia |].
  destruct (lookup_lt_is_Some_2 _ _ Hlt) as [o Hobj].
  rewrite (run_dispose_rec n r o w Hobj).
  destruct (is_sequence (cls o)); [| now apply ForeignInstance_dispose_not_stuck].
  rewrite run_bind.
  assert (Hkids : Forall (fun c => (c < n)%nat /\ (c < length (heap w))%nat) (children o)).
  { eapply Forall_impl; [exact (Hwf r o Hobj) |]. cbv beta. intros c Hc. lia. }
  pose proof (forEach_not_stuck n (children o) IH w Hwf Hkids) as Hns.
  destruct (forEach (children o) (dispose_rec n) w) as [[[] | e |] w1] eqn:Hrun.
  - apply ForeignInstance_dispose_not_stuck.
    assert (Hz : zeroed (heap w) (heap w1)).
    { eapply forEach_zeroed; [| eassumption].
      intros; eapply dispose_rec_zeroed; eassumption. }
    rewrite (proj1 Hz). assumption.
  - discriminate.
  - exfalso. apply Hns. reflexivity.
Qed.

(** In a store where children precede their Sequence, [dispose] on an
    object of the store always ends, normally or by a [throw]. *)
Lemma dispose_not_stuck (this : ref) (w : World) :
  wf_heap (heap w) -> (this < length (heap w))%nat ->
  fst (dispose this w) <> Stuck.
Proof. intros Hwf Hlt. unfold dispose. now apply dispose_rec_not_stuck. Qed.

(** [dispose] keeps the store well formed. *)
Lemma dispose_wf (this : ref) (w : World) :
  wf_heap (heap w) -> wf_heap (heap (snd (dispose this w))).
Proof.
  intros Hwf. unfold dispose.
  destruct (dispose_rec (length (heap w)) this w) as [c w'] eqn:Hrun.
  eapply wf_heap_zeroed; [exact Hwf |]. eapply dispose_rec_zeroed; eassumption.
Qed.

(** * Further properties of the binding *)

(** ** The call wrappers at the boundary *)



(** Under Bun the native [free_buffer] is called with no argument. *)
Example release_under_bun :
  let G : Generated := sample_generated in
  let N : Native :=
    const_native_bun (mkReply 3 0 4096 (String.list_byte_of_string "bad")) in
  methodArgsNoResult (Some normalize) 1 (NormalizeParams 2) empty_world
  = (Throw (mkExn NormalizationError "bad"),
     mkWorld [] [Call normalize 1 (NormalizeParams 2); FreeBufferNoArgs]).
Proof. vm_compute. reflexivity. Qed.

(** Under Deno it is called with the pointer and the length. *)
Example release_under_deno :
  let G : Generated := sample_generated in
  let N : Native :=
    const_native (mkReply 3 0 4096 (String.list_byte_of_string "bad")) in
  methodArgsNoResult (Some normalize) 1 (NormalizeParams 2) empty_world
  = (Throw (mkExn NormalizationError "bad"),
     mkWorld [] [Call normalize 1 (NormalizeParams 2); FreeBuffer 4096 3]).
Proof. vm_compute. reflexivity. Qed.
(** ** Constructors *)

(** X2.  As the code stands no instance can be constructed: every class
    reads its native constructor as a property of the library object
    ([dylib.new_normalizer_wrapper] and the like) and not of its symbol
    table, so [createNewArgs] is handed [undefined] and raises a
    [TypeError] when it calls it, before anything crosses the boundary.
    The constructors of [Normalizer], [PreTokenizer] and [PipelineString]
    have run [super()] by then, so an object without a handle exists;
    [Tokenizer.fromFile] has made none. *)
Theorem constructors_raise_before_native_call `{Generated} `{Native} (w : World)
    (c : Class_) (np : NormalizerWrapper.t) (pp : PreTokenizerWrapper.t)
    (text path : string) :
  let undefined_call := mkExn TypeError "undefined is not a function" in
  normalizers.Normalizer_new c np w
    = (Throw undefined_call, mkWorld (heap w ++ [mkObject c 0 []]) (trace w)) /\
  pre_tokenizers.PreTokenizer_new c pp w
    = (Throw undefined_call, mkWorld (heap w ++ [mkObject c 0 []]) (trace w)) /\
  pipeline_string.new text w
    = (Throw undefined_call,
       mkWorld (heap w ++ [mkObject PipelineString 0 []]) (trace w)) /\
  tokenizer.fromFile path w = (Throw undefined_call, w).
Proof. intros undefined_call. repeat split. Qed.

(** Two of the concrete classes. *)
Example Lowercase_raises :
  let G : Generated := sample_generated in
  let N : Native := obliging_native "" in
  normalizers.Lowercase empty_world
  = (Throw (mkExn TypeError "undefined is not a function"),
     mkWorld [mkObject Normalizer 0 []] []).
Proof. vm_compute. reflexivity. Qed.

Example fromFile_raises :
  let G : Generated := sample_generated in
  let N : Native := obliging_native "" in
  tokenizer.fromFile "tokenizer.json" empty_world
  = (Throw (mkExn TypeError "undefined is not a function"), empty_world).
Proof. vm_compute. reflexivity. Qed.

(** Had the constructor been read from the symbol table, the call would
    cross the boundary. *)
Example createNewArgs_on_symbol_table :
  let G : Generated := sample_generated in
  let N : Native := obliging_native "" in
  createNewArgs (dylib_symbols "tokenizer_from_file") (TokenizerFromFile "tokenizer.json")
    empty_world
  = (Normal 1,
     mkWorld [] [New tokenizer_from_file (TokenizerFromFile "tokenizer.json")]).
Proof. vm_compute. reflexivity. Qed.
(** ** Calls on a live instance *)

(** X4.  As the code stands no method reaches the native library:
    [normalize], [preTokenize], [decode] and [encode] on an instance with a
    nonzero handle, and [getSplits] on any instance, hand [undefined] to
    their call wrapper ([dylib.normalize] and the like are properties of
    the library object, not of its symbol table); the wrapper raises a
    [TypeError] when it calls it, nothing crosses the boundary and the
    object store is unchanged. *)
Theorem stage_calls_raise_before_native_call `{Generated} `{Native}
    (this ps : ref) (o po : Object) (w : World)
    ids skip x ast i2 f1 f2 f3 f4 f5 f6 f7 rf ty io :
  heap w !! this = Some o ->
  instancePtr o <> 0 ->
  heap w !! ps = Some po ->
  let undefined_call := mkExn TypeError "undefined is not a function" in
  normalizers.normalize this ps w = (Throw undefined_call, w) /\
  pre_tokenizers.preTokenize this ps w = (Throw undefined_call, w) /\
  tokenizer.decode this ids skip w = (Throw undefined_call, w) /\
  tokenizer.encode this x ast i2 f1 f2 f3 f4 f5 f6 f7 w = (Throw undefined_call, w) /\
  pipeline_string.getSplits ps rf ty io w = (Throw undefined_call, w).
Proof.
  intros Hobj Hptr Hps undefined_call. apply Z.eqb_neq in Hptr.
  split; [| split; [| split; [| split]]].
  - unfold normalizers.normalize, getInstancePtr, deref.
    rewrite run_bind, Hobj, Hptr, run_bind, run_bind, Hps, run_ret. reflexivity.
  - unfold pre_tokenizers.preTokenize, getInstancePtr, deref.
    rewrite run_bind, Hobj, Hptr, run_bind, run_bind, Hps, run_ret. reflexivity.
  - unfold tokenizer.decode, deref. rewrite run_bind, Hobj, Hptr. reflexivity.
  - unfold tokenizer.encode, deref. rewrite run_bind, Hobj, Hptr.
    destruct i2; reflexivity.
  - rewrite (getSplits_unguarded ps po rf ty io w Hps). reflexivity.
Qed.

Lemma stage_calls_raise_before_native_call_witness :
  let G : Generated := sample_generated in
  let N : Native := obliging_native "" in
  let w := mkWorld [mkObject Normalizer 7 []; mkObject PipelineString 9 []] [] in
  let undefined_call := mkExn TypeError "undefined is not a function" in
  normalizers.normalize 0%nat 1%nat w = (Throw undefined_call, w) /\
  pre_tokenizers.preTokenize 0%nat 1%nat w = (Throw undefined_call, w) /\
  tokenizer.decode 0%nat [5; 6] true w = (Throw undefined_call, w) /\
  tokenizer.encode 0%nat "text" true None false false false false false false false w
    = (Throw undefined_call, w) /\
  pipeline_string.getSplits 1%nat 0 0 true w = (Throw undefined_call, w).
Proof.
  intros G N w.
  apply (@stage_calls_raise_before_native_call G N 0%nat 1%nat
           (mkObject Normalizer 7 []) (mkObject PipelineString 9 []) w).
  - reflexivity.
  - discriminate.
  - reflexivity.
Defined.
(** ** Disposal, continued *)

Lemma run_ForeignInstance_dispose_undefined (this : ref) (o : Object) (w : World) :
  heap w !! this = Some o ->
  ForeignInstance_dispose this w =
    if instancePtr o =? 0 then (Normal tt, w)
    else (Throw (mkExn TypeError "undefined is not a function"), w).
Proof.
  intros Hobj. rewrite (run_ForeignInstance_dispose this o w Hobj).
  now rewrite freFunc_undefined.
Qed.

(** [dispose] never changes the world, and the only error it raises is the
    call of an undefined free function. *)
Lemma ForeignInstance_dispose_outcome (this : ref) (w : World) c w' :
  ForeignInstance_dispose this w = (c, w') ->
  w' = w /\ forall e, c = Throw e -> e = mkExn TypeError "undefined is not a function".
Proof.
  destruct (heap w !! this) as [o |] eqn:Hobj.
  - rewrite (run_ForeignInstance_dispose_undefined this o w Hobj).
    destruct (instancePtr o =? 0); intros [= <- <-]; split; congruence.
  - unfold ForeignInstance_dispose, deref. rewrite run_bind, Hobj.
    intros [= <- <-]. split; [reflexivity | discriminate].
Qed.

Lemma forEach_outcome {A} (f : A -> M unit) (l : list A) :
  (forall a w c w', f a w = (c, w') ->
     w' = w /\ forall e, c = Throw e -> e = mkExn TypeError "undefined is not a function") ->
  forall w c w', forEach l f w = (c, w') ->
     w' = w /\ forall e, c = Throw e -> e = mkExn TypeError "undefined is not a function".
Proof.
  intros Hf. induction l as [| a l IH]; intros w c w'.
  - intros [= <- <-]. split; [reflexivity | discriminate].
  - cbn [forEach]. rewrite run_bind.
    destruct (f a w) as [[[] | e |] w1] eqn:Ha; destruct (Hf _ _ _ _ Ha) as [-> He].
    + apply IH.
    + intros [= <- <-]. split; [reflexivity | exact He].
    + intros [= <- <-]. split; [reflexivity | discriminate].
Qed.

Lemma dispose_rec_outcome (fuel : nat) (this : ref) (w : World) c w' :
  dispose_rec fuel this w = (c, w') ->
  w' = w /\ forall e, c = Throw e -> e = mkExn TypeError "undefined is not a function".
Proof.
  revert this w c w'. induction fuel as [| fuel IH]; intros this w c w'.
  - intros [= <- <-]. split; [reflexivity | discriminate].
  - destruct (heap w !! this) as [o |] eqn:Hobj.
    + rewrite (run_dispose_rec fuel this o w Hobj).
      destruct (is_sequence (cls o)); [| apply ForeignInstance_dispose_outcome].
      rewrite run_bind.
      destruct (forEach (children o) (dispose_rec fuel) w) as [[[] | e |] w1] eqn:Hkids;
        destruct (forEach_outcome (dispose_rec fuel) (children o) IH _ _ _ Hkids)
          as [-> He].
      * apply ForeignInstance_dispose_outcome.
      * intros [= <- <-]. split; [reflexivity | exact He].
      * intros [= <- <-]. split; [reflexivity | discriminate].
    + cbn [dispose_rec]. rewrite run_bind. unfold deref. rewrite Hobj.
      intros [= <- <-]. split; [reflexivity | discriminate].
Qed.

(** X5.  As the code stands [dispose()] releases nothing, for any class:
    [freFunc()] returns a property that the library object does not have.
    On an instance with a nonzero handle that is not a Sequence,
    [dispose()] raises a [TypeError]; and whatever the instance is, the
    call leaves every handle in place and calls no native function. *)
Theorem dispose_releases_nothing (this : ref) (o : Object) (w : World) :
  snd (dispose this w) = w /\
  (heap w !! this = Some o ->
   is_sequence (cls o) = false ->
   instancePtr o <> 0 ->
   dispose this w = (Throw (mkExn TypeError "undefined is not a function"), w)).
Proof.
  split.
  - unfold dispose.
    destruct (dispose_rec (length (heap w)) this w) as [c w'] eqn:Hrun.
    exact (proj1 (dispose_rec_outcome _ _ _ _ _ Hrun)).
  - intros Hobj Hseq Hptr. unfold dispose.
    pose proof (lookup_lt_Some _ _ _ Hobj) as Hlt.
    destruct (length (heap w)) as [| fuel]; [lia |].
    rewrite (run_dispose_rec fuel this o w Hobj), Hseq.
    rewrite (run_ForeignInstance_dispose_undefined this o w Hobj).
    apply Z.eqb_neq in Hptr. now rewrite Hptr.
Qed.

Lemma dispose_releases_nothing_witness :
  let w := mkWorld [mkObject Normalizer 7 []; mkObject PipelineString 9 []] [] in
  dispose 1%nat w = (Throw (mkExn TypeError "undefined is not a function"), w).
Proof.
  intros w.
  apply (proj2 (dispose_releases_nothing 1%nat (mkObject PipelineString 9 []) w)).
  - reflexivity.
  - reflexivity.
  - discriminate.
Defined.

(** X6.  On a released instance (its handle is zero and, for a Sequence,
    so are the handles of everything below it) [dispose()] returns without
    raising, calls no native function and changes no handle, however many
    times it is called. *)
Theorem dispose_repeated_is_noop (this : ref) (w : World) (k : nat) :
  released (length (heap w)) (heap w) this ->
  dispose_times k this w = (Normal tt, w).
Proof.
  intros Hrel.
  assert (Hone : dispose this w = (Normal tt, w)) by now apply released_noop.
  induction k as [| k IH]; [reflexivity |].
  cbn [dispose_times]. rewrite run_bind, Hone. exact IH.
Qed.

Lemma dispose_repeated_is_noop_witness :
  let w := mkWorld [mkObject Normalizer 0 []; mkObject Normalizer 0 [];
                    mkObject NormalizerSequence 0 [0; 1]%nat] [] in
  dispose_times 3 2%nat w = (Normal tt, w).
Proof.
  intros w. apply (dispose_repeated_is_noop 2%nat w 3).
  simpl. eexists. split; [reflexivity |]. split; [reflexivity |]. intros _.
  repeat constructor;
    (eexists; split; [reflexivity |]; split; [reflexivity | discriminate]).
Defined.

(** X7.  On an instance whose handle is zero, [normalize], [preTokenize],
    [decode] and [encode] raise [ObjectDisposed] (with an empty message);
    nothing crosses the boundary and the object store is unchanged. *)
Theorem released_instance_guards `{Generated} `{Native} (this ps : ref) (o : Object)
    (w : World) ids skip x ast i2 f1 f2 f3 f4 f5 f6 f7 :
  heap w !! this = Some o ->
  instancePtr o = 0 ->
  normalizers.normalize this ps w = (Throw (mkExn ObjectDisposed ""), w) /\
  pre_tokenizers.preTokenize this ps w = (Throw (mkExn ObjectDisposed ""), w) /\
  tokenizer.decode this ids skip w = (Throw (mkExn ObjectDisposed ""), w) /\
  tokenizer.encode this x ast i2 f1 f2 f3 f4 f5 f6 f7 w
    = (Throw (mkExn ObjectDisposed ""), w).
Proof.
  intros Hobj Hptr. repeat split.
  - exact (normalize_disposed this ps o w Hobj Hptr).
  - exact (preTokenize_disposed this ps o w Hobj Hptr).
  - exact (decode_disposed this ids skip o w Hobj Hptr).
  - exact (encode_disposed this x ast i2 f1 f2 f3 f4 f5 f6 f7 o w Hobj Hptr).
Qed.

Lemma released_instance_guards_witness :
  let G : Generated := sample_generated in
  let N : Native := obliging_native "" in
  let w := mkWorld [mkObject Tokenizer 0 []; mkObject PipelineString 9 []] [] in
  normalizers.normalize 0%nat 1%nat w = (Throw (mkExn ObjectDisposed ""), w) /\
  pre_tokenizers.preTokenize 0%nat 1%nat w = (Throw (mkExn ObjectDisposed ""), w) /\
  tokenizer.decode 0%nat [5; 6] true w = (Throw (mkExn ObjectDisposed ""), w) /\
  tokenizer.encode 0%nat "text" true None false false false false false false false w
    = (Throw (mkExn ObjectDisposed ""), w).
Proof.
  intros G N w.
  apply (@released_instance_guards G N 0%nat 1%nat (mkObject Tokenizer 0 []) w).
  - reflexivity.
  - reflexivity.
Defined.

(** *** The outcome of [dispose] *)

(** X8.  In a store where the children of every Sequence were created
    before it, the outcome of [dispose()] is decided by the handles alone:
    it returns exactly when the instance is released already (a Sequence:
    together with everything below it), and raises the [TypeError] of the
    undefined free function otherwise.  In both cases the world is
    unchanged. *)
Theorem dispose_outcome (this : ref) (w : World) :
  wf_heap (heap w) ->
  (this < length (heap w))%nat ->
  (released (length (heap w)) (heap w) this /\ dispose this w = (Normal tt, w)) \/
  (~ released (length (heap w)) (heap w) this /\
   dispose this w = (Throw (mkExn TypeError "undefined is not a function"), w)).
Proof.
  intros Hwf Hlt.
  pose proof (dispose_not_stuck this w Hwf Hlt) as Hns.
  unfold dispose in *.
  destruct (dispose_rec (length (heap w)) this w) as [c w'] eqn:Hrun.
  destruct (dispose_rec_outcome _ _ _ _ _ Hrun) as [-> He].
  destruct c as [[] | e |].
  - left. split; [| reflexivity]. exact (dispose_rec_released _ _ _ _ Hrun).
  - right. rewrite (He e eq_refl). split; [| reflexivity].
    intros Hrel. rewrite (released_noop _ _ _ Hrel) in Hrun. discriminate.
  - exfalso. apply Hns. reflexivity.
Qed.

Lemma dispose_outcome_witness :
  let w := mkWorld [mkObject Normalizer 0 []; mkObject Normalizer 7 [];
                    mkObject NormalizerSequence 0 [0; 1]%nat] [] in
  (released 3 (heap w) 2%nat /\ dispose 2%nat w = (Normal tt, w)) \/
  (~ released 3 (heap w) 2%nat /\
   dispose 2%nat w = (Throw (mkExn TypeError "undefined is not a function"), w)).
Proof.
  intros w. apply (dispose_outcome 2%nat w).
  - intros r o Hr.
    destruct r as [| [| [| r]]]; cbn in Hr; try discriminate;
      injection Hr as <-; cbn [children]; repeat constructor; lia.
  - simpl. lia.
Defined.

(** Which of the two it is at that input: the second child is live. *)
Example dispose_sequence_with_live_child :
  let w := mkWorld [mkObject Normalizer 0 []; mkObject Normalizer 7 [];
                    mkObject NormalizerSequence 0 [0; 1]%nat] [] in
  dispose 2%nat w = (Throw (mkExn TypeError "undefined is not a function"), w).
Proof. vm_compute. reflexivity. Qed.
(** ** The address test of the Sequence constructors *)

(** X9.  [getInstancePtr] reads address 0 exactly for a zero handle: the
    rounding of [Number] never takes a nonzero handle to 0, however large,
    so a live instance is never mistaken for a released one. *)
Theorem address_zero_iff_released (this : ref) (o : Object) (w : World) :
  heap w !! this = Some o ->
  0 <= instancePtr o ->
  (getInstancePtr this w = (Normal 0, w) <-> instancePtr o = 0).
Proof.
  intros Hobj Hpos. unfold getInstancePtr, deref. rewrite run_bind, Hobj, run_ret.
  split.
  - intros [= Hz]. now apply Number_zero.
  - intros ->. reflexivity.
Qed.

Lemma address_zero_iff_released_witness :
  getInstancePtr 0%nat (mkWorld [mkObject Normalizer (2 ^ 64 - 1) []] [])
  <> (Normal 0, mkWorld [mkObject Normalizer (2 ^ 64 - 1) []] []).
Proof.
  intros Hz.
  apply (address_zero_iff_released 0%nat (mkObject Normalizer (2 ^ 64 - 1) [])
           (mkWorld [mkObject Normalizer (2 ^ 64 - 1) []] [])) in Hz.
  - discriminate Hz.
  - reflexivity.
  - simpl. lia.
Defined.

Section SequenceAddresses.
Context `{Generated} `{Native}.

Lemma run_getInstancePtr (c : ref) (o : Object) (w : World) :
  heap w !! c = Some o -> getInstancePtr c w = (Normal (Number (instancePtr o)), w).
Proof.
  intros Hobj. unfold getInstancePtr, deref. now rewrite run_bind, Hobj, run_ret.
Qed.

Lemma Number_live (o : Object) : 0 < instancePtr o -> (Number (instancePtr o) =? 0) = false.
Proof.
  intros Hpos. apply Z.eqb_neq. intros Hz. apply Number_zero in Hz; lia.
Qed.

Lemma normalizers_addresses_live (cs : list ref) (os : list Object) (w : World) :
  Forall2 (fun c o => heap w !! c = Some o /\ 0 < instancePtr o) cs os ->
  forall i acc,
    normalizers.Sequence_addresses cs i acc w
    = (Normal (acc ++ map (fun o => Number (instancePtr o)) os), w).
Proof.
  induction 1 as [| c o cs os [Hobj Hpos] _ IH]; intros i acc.
  - cbn. now rewrite app_nil_r.
  - cbn [normalizers.Sequence_addresses].
    rewrite run_bind, (run_getInstancePtr c o w Hobj), (Number_live o Hpos), IH.
    cbn [map]. now rewrite <- app_assoc.
Qed.

Lemma normalizers_addresses_disposed (pre : list ref) (opre : list Object)
    (c : ref) (o : Object) (post : list ref) (w : World) :
  Forall2 (fun c o => heap w !! c = Some o /\ 0 < instancePtr o) pre opre ->
  heap w !! c = Some o -> instancePtr o = 0 ->
  forall i acc,
    normalizers.Sequence_addresses (pre ++ c :: post) i acc w
    = (Throw (mkExn ObjectDisposed
                ("The normalizer at index [" +:+ show (i + Z.of_nat (length pre))
                 +:+ "] is disposed")), w).
Proof.
  intros Hpre Hobj Hptr.
  induction Hpre as [| c' o' pre opre [Hobj' Hpos'] _ IH]; intros i acc.
  - cbn [app normalizers.Sequence_addresses length].
    rewrite run_bind, (run_getInstancePtr c o w Hobj), Hptr.
    cbn. now rewrite Z.add_0_r.
  - cbn [app normalizers.Sequence_addresses].
    rewrite run_bind, (run_getInstancePtr c' o' w Hobj'), (Number_live o' Hpos'), IH.
    replace (i + 1 + Z.of_nat (length pre)) with (i + Z.of_nat (length (c' :: pre)))
      by (cbn [length]; lia).
    reflexivity.
Qed.

Lemma pre_tokenizers_addresses_live (cs : list ref) (os : list Object) (w : World) :
  Forall2 (fun c o => heap w !! c = Some o /\ 0 < instancePtr o) cs os ->
  forall i acc,
    pre_tokenizers.Sequence_addresses cs i acc w
    = (Normal (acc ++ map (fun o => Number (instancePtr o)) os), w).
Proof.
  induction 1 as [| c o cs os [Hobj Hpos] _ IH]; intros i acc.
  - cbn. now rewrite app_nil_r.
  - cbn [pre_tokenizers.Sequence_addresses].
    rewrite run_bind, (run_getInstancePtr c o w Hobj), (Number_live o Hpos), IH.
    cbn [map]. now rewrite <- app_assoc.
Qed.

Lemma pre_tokenizers_addresses_disposed (pre : list ref) (opre : list Object)
    (c : ref) (o : Object) (post : list ref) (w : World) :
  Forall2 (fun c o => heap w !! c = Some o /\ 0 < instancePtr o) pre opre ->
  heap w !! c = Some o -> instancePtr o = 0 ->
  forall i acc,
    pre_tokenizers.Sequence_addresses (pre ++ c :: post) i acc w
    = (Throw (mkExn ObjectDisposed
                ("The preTokenizers at index [" +:+ show (i + Z.of_nat (length pre))
                 +:+ "] is disposed")), w).
Proof.
  intros Hpre Hobj Hptr.
  induction Hpre as [| c' o' pre opre [Hobj' Hpos'] _ IH]; intros i acc.
  - cbn [app pre_tokenizers.Sequence_addresses length].
    rewrite run_bind, (run_getInstancePtr c o w Hobj), Hptr.
    cbn. now rewrite Z.add_0_r.
  - cbn [app pre_tokenizers.Sequence_addresses].
    rewrite run_bind, (run_getInstancePtr c' o' w Hobj'), (Number_live o' Hpos'), IH.
    replace (i + 1 + Z.of_nat (length pre)) with (i + Z.of_nat (length (c' :: pre)))
      by (cbn [length]; lia).
    reflexivity.
Qed.

End SequenceAddresses.

(** X10.  A Sequence constructor given a released element raises
    [ObjectDisposed] naming the index of the first released element; it
    does so before anything is allocated or crosses the boundary: the world
    is unchanged.  Elements after the first released one are not looked
    at. *)
Theorem Sequence_rejects_released_element `{Generated} `{Native}
    (pre : list ref) (opre : list Object) (c : ref) (o : Object) (post : list ref)
    (w : World) :
  Forall2 (fun c o => heap w !! c = Some o /\ 0 < instancePtr o) pre opre ->
  heap w !! c = Some o ->
  instancePtr o = 0 ->
  normalizers.Sequence (pre ++ c :: post) w
  = (Throw (mkExn ObjectDisposed
              ("The normalizer at index [" +:+ show (Z.of_nat (length pre))
               +:+ "] is disposed")), w) /\
  pre_tokenizers.Sequence (pre ++ c :: post) w
  = (Throw (mkExn ObjectDisposed
              ("The preTokenizers at index [" +:+ show (Z.of_nat (length pre))
               +:+ "] is disposed")), w).
Proof.
  intros Hpre Hobj Hptr. split.
  - unfold normalizers.Sequence.
    rewrite run_bind, (normalizers_addresses_disposed pre opre c o post w Hpre Hobj Hptr).
    reflexivity.
  - unfold pre_tokenizers.Sequence.
    rewrite run_bind, (pre_tokenizers_addresses_disposed pre opre c o post w Hpre Hobj Hptr).
    reflexivity.
Qed.

Lemma Sequence_rejects_released_element_witness :
  let G : Generated := sample_generated in
  let N : Native := obliging_native "" in
  let w := mkWorld [mkObject Normalizer 7 []; mkObject Normalizer 0 [];
                    mkObject Normalizer 9 []] [] in
  normalizers.Sequence [0; 1; 2]%nat w
  = (Throw (mkExn ObjectDisposed "The normalizer at index [1] is disposed"), w).
Proof.
  intros G N w.
  apply (@Sequence_rejects_released_element G N [0%nat] [mkObject Normalizer 7 []]
           1%nat (mkObject Normalizer 0 []) [2%nat] w).
  - repeat constructor.
  - reflexivity.
  - reflexivity.
Defined.

(** X11.  A Sequence constructor given live elements reads their
    addresses in the order of the list and passes the address test; then,
    as the code stands, the constructor of its base class raises the
    [TypeError] of the undefined native constructor: the Sequence object
    exists without a handle and without children, no element is changed
    and nothing crosses the boundary. *)
Theorem Sequence_of_live_elements_raises `{Generated} `{Native}
    (cs : list ref) (os : list Object) (w : World) :
  Forall2 (fun c o => heap w !! c = Some o /\ 0 < instancePtr o) cs os ->
  let addresses := map (fun o => Number (instancePtr o)) os in
  let undefined_call := mkExn TypeError "undefined is not a function" in
  normalizers.Sequence_addresses cs 0 [] w = (Normal addresses, w) /\
  pre_tokenizers.Sequence_addresses cs 0 [] w = (Normal addresses, w) /\
  normalizers.Sequence cs w
    = (Throw undefined_call,
       mkWorld (heap w ++ [mkObject NormalizerSequence 0 []]) (trace w)) /\
  pre_tokenizers.Sequence cs w
    = (Throw undefined_call,
       mkWorld (heap w ++ [mkObject PreTokenizerSequence 0 []]) (trace w)).
Proof.
  intros Hlive addresses undefined_call.
  pose proof (normalizers_addresses_live cs os w Hlive 0 []) as Hn.
  pose proof (pre_tokenizers_addresses_live cs os w Hlive 0 []) as Hp.
  cbn [app] in Hn, Hp. fold addresses in Hn, Hp.
  split; [exact Hn |]. split; [exact Hp |]. split.
  - unfold normalizers.Sequence. rewrite run_bind, Hn. reflexivity.
  - unfold pre_tokenizers.Sequence. rewrite run_bind, Hp. reflexivity.
Qed.

Lemma Sequence_of_live_elements_raises_witness :
  let G : Generated := sample_generated in
  let N : Native := obliging_native "" in
  let w := mkWorld [mkObject Normalizer 7 []; mkObject Normalizer 9 []] [] in
  normalizers.Sequence_addresses [1; 0]%nat 0 [] w = (Normal [9; 7], w) /\
  pre_tokenizers.Sequence_addresses [1; 0]%nat 0 [] w = (Normal [9; 7], w) /\
  normalizers.Sequence [1; 0]%nat w
    = (Throw (mkExn TypeError "undefined is not a function"),
       mkWorld [mkObject Normalizer 7 []; mkObject Normalizer 9 [];
                mkObject NormalizerSequence 0 []] []) /\
  pre_tokenizers.Sequence [1; 0]%nat w
    = (Throw (mkExn TypeError "undefined is not a function"),
       mkWorld [mkObject Normalizer 7 []; mkObject Normalizer 9 [];
                mkObject PreTokenizerSequence 0 []] []).
Proof.
  intros G N w.
  apply (@Sequence_of_live_elements_raises G N [1; 0]%nat
           [mkObject Normalizer 9 []; mkObject Normalizer 7 []] w).
  repeat constructor.
Defined.
(** ** Where errors come from *)

Section ErrorOrigins.
Context `{Generated} `{Native}.

Lemma throwErrors_class (s : Z) (buf : bytes) (w : World) (e : Exn) :
  (0 < s -> exists d, Error_decode_details buf = inr d) ->
  fst (throwErrors s buf w) = Throw e ->
  ename e <> ObjectDisposed.
Proof.
  intros Hd. unfold throwErrors. rewrite run_bind.
  destruct (0 <? s) eqn:Hs.
  - apply Z.ltb_lt in Hs. destruct (Hd Hs) as [d ->]. cbn [lift]. rewrite run_ret.
    destruct (callStatusFromJSON s); intros [= <-]; discriminate.
  - rewrite run_ret.
    destruct (callStatusFromJSON s); intros [= <-]; discriminate.
Qed.

End ErrorOrigins.

(** X12.  Whatever the native library replies, a call wrapper that was
    given a native function never raises [ObjectDisposed], as long as the
    details of a positive status decode: [ObjectDisposed] only ever comes
    from the local handle tests. *)
Theorem native_status_never_ObjectDisposed `{Generated} `{Native} {R} (f : Symbol)
    (p : Z) (input : Message) (parser : bytes -> Exn + R) (w : World) (e : Exn) :
  (forall ev, 0 < status (native (trace w) ev) ->
              exists d, Error_decode_details (outBuf (native (trace w) ev)) = inr d) ->
  ename e = ObjectDisposed ->
  fst (methodArgsNoResult (Some f) p input w) <> Throw e /\
  fst (methodArgsResult (Some f) p input parser w) <> Throw e /\
  fst (createNewArgs (Some f) input w) <> Throw e.
Proof.
  intros Hd He.
  assert (Hthrow : forall (r : Reply) (b : bool),
            (0 < status r -> b = true) ->
            (0 < status r -> exists d, Error_decode_details (outBuf r) = inr d) ->
            fst (throwErrors (status r) (if b then outBuf r else []) w) <> Throw e).
  { intros r b Hb Hdr Hrun. apply (throwErrors_class _ _ _ _) in Hrun; [contradiction |].
    intros Hpos. rewrite (Hb Hpos). exact (Hdr Hpos). }
  split; [| split].
  - rewrite run_methodArgsNoResult.
    set (r := native (trace w) (Call f p input)).
    destruct (outPtr r =? 0); [cbn [fst]; intros [= <-]; discriminate He |].
    destruct (status r =? 0); [discriminate |]. cbn [fst].
    apply Hthrow; [apply Z.ltb_lt | apply Hd].
  - rewrite run_methodArgsResult.
    set (r := native (trace w) (Call f p input)).
    destruct (outPtr r =? 0); [cbn [fst]; intros [= <-]; discriminate He |]. cbn [fst].
    pose proof (Hthrow r (0 <=? status r)) as Hne.
    destruct (throwErrors_throws (status r)
                (if 0 <=? status r then outBuf r else []) w) as [e0 He0].
    rewrite He0 in Hne |- *. intros [= ->]. apply Hne; [| apply Hd | reflexivity].
    intros Hpos. apply Z.leb_le. lia.
  - rewrite run_createNewArgs.
    set (r := native (trace w) (New f input)).
    destruct (outPtr r =? 0); [cbn [fst]; intros [= <-]; discriminate He |].
    destruct (status r =? 0); [discriminate |]. cbn [fst].
    pose proof (Hthrow r (0 <? status r)) as Hne.
    destruct (throwErrors_throws (status r)
                (if 0 <? status r then outBuf r else []) w) as [e0 He0].
    rewrite He0 in Hne |- *. intros [= ->]. apply Hne; [| apply Hd | reflexivity].
    apply Z.ltb_lt.
Qed.

Lemma native_status_never_ObjectDisposed_witness :
  let G : Generated := sample_generated in
  let N : Native := const_native (mkReply 2 0 4096 (String.list_byte_of_string "bad handle")) in
  fst (methodArgsNoResult (Some normalize) 1 (NormalizeParams 2) empty_world)
    <> Throw (mkExn ObjectDisposed "bad handle") /\
  fst (methodArgsResult (Some decode) 1 (DecodeParams [3] true) DecodeResult_decode
         empty_world)
    <> Throw (mkExn ObjectDisposed "bad handle") /\
  fst (createNewArgs (Some new_pipeline_string) (PipelineStringParams "x") empty_world)
    <> Throw (mkExn ObjectDisposed "bad handle").
Proof.
  intros G N.
  assert (Hd : forall ev, 0 < status (native (trace empty_world) ev) ->
                 exists d, Error_decode_details
                             (outBuf (native (trace empty_world) ev)) = inr d).
  { intros ev _. eexists. reflexivity. }
  split; [| split].
  - apply (@native_status_never_ObjectDisposed G N DecodeResult normalize 1
             (NormalizeParams 2) DecodeResult_decode empty_world
             (mkExn ObjectDisposed "bad handle") Hd eq_refl).
  - apply (@native_status_never_ObjectDisposed G N DecodeResult decode 1
             (DecodeParams [3] true) DecodeResult_decode empty_world
             (mkExn ObjectDisposed "bad handle") Hd eq_refl).
  - apply (@native_status_never_ObjectDisposed G N DecodeResult new_pipeline_string 1
             (PipelineStringParams "x") DecodeResult_decode empty_world
             (mkExn ObjectDisposed "bad handle") Hd eq_refl).
Defined.

(** What is raised at that input. *)
Example invalid_pointer_status :
  let G : Generated := sample_generated in
  let N : Native := const_native (mkReply 2 0 4096 (String.list_byte_of_string "bad handle")) in
  fst (methodArgsNoResult (Some normalize) 1 (NormalizeParams 2) empty_world)
  = Throw (mkExn InvalidPointer "bad handle").
Proof. vm_compute. reflexivity. Qed.
(** ** The native package chosen at module load *)

(** X13.  Module initialisation picks the package named after the canonical
    platform and architecture: "windows" and "win32" both select win32,
    "x86_64" selects x64 and "aarch64" selects arm64.  Outside Deno and Bun
    it raises "Unsupported runtime"; an unknown platform is reported before
    an unknown architecture, each with its name in the message. *)
Theorem native_package_canonical (isDeno isBun : bool)
    (Deno_build_os Deno_build_arch process_platform process_arch : string) :
  let os := if isDeno then Deno_build_os else process_platform in
  let arch := if isDeno then Deno_build_arch else process_arch in
  native_package isDeno isBun Deno_build_os Deno_build_arch process_platform process_arch
  = if negb (isDeno || isBun) then inl (mkExn Error "Unsupported runtime")
    else
      match canonical_os os, canonical_arch arch with
      | None, _ => inl (mkExn Error ("Unsupported platform: " +:+ os))
      | Some _, None => inl (mkExn Error ("Unsupported architecture: " +:+ arch))
      | Some o, Some a =>
          inr ("@lazy_engineer/tokenizers-huggingface-" +:+ o +:+ "-" +:+ a)%string
      end.
Proof.
  intros os arch. unfold native_package, canonical_os, canonical_arch.
  fold os arch. clearbody os arch.
  destruct (negb (isDeno || isBun)); [reflexivity |].
  destruct (String.eqb os "windows"), (String.eqb os "win32"),
    (String.eqb os "linux"), (String.eqb os "darwin");
    cbn [orb negb];
    destruct (String.eqb arch "x64"), (String.eqb arch "x86_64"),
      (String.eqb arch "arm64"), (String.eqb arch "aarch64");
    reflexivity.
Qed.

(** The packages for the names the two runtimes report on a 64-bit ARM
    Linux machine and on Windows. *)
Example native_package_examples :
  native_package true false "linux" "aarch64" "" "" 
  = inr "@lazy_engineer/tokenizers-huggingface-linux-arm64"%string /\
  native_package false true "" "" "win32" "x64"
  = inr "@lazy_engineer/tokenizers-huggingface-win32-x64"%string /\
  native_package true false "windows" "x86_64" "" ""
  = inr "@lazy_engineer/tokenizers-huggingface-win32-x64"%string /\
  native_package false true "" "" "freebsd" "mips"
  = inl (mkExn Error "Unsupported platform: freebsd").
Proof. repeat split. Qed.

(** ** The result assembly of [getSplits] *)

Section SplitsLoop.
Context `{Generated} `{Native}.

Lemma getSplits_loop_without_offsets (r : SplitResult) (toks : list string) :
  forall i acc w,
    pipeline_string.getSplits_loop r false i toks acc w
    = (Normal (acc ++ map (fun t => (t, None)) toks), w).
Proof.
  induction toks as [| t toks IH]; intros i acc w.
  - cbn. now rewrite app_nil_r.
  - cbn [pipeline_string.getSplits_loop]. rewrite run_bind, run_ret, IH.
    cbn [map]. now rewrite <- app_assoc.
Qed.

Lemma getSplits_loop_with_offsets (r : SplitResult) (toks : list string) :
  forall i acc w,
    (i + length toks <= length (offsets r))%nat ->
    pipeline_string.getSplits_loop r true i toks acc w
    = (Normal (acc ++ zip_with (fun t o => (t, Some (start o, end_ o)))
                        toks (drop i (offsets r))), w).
Proof.
  induction toks as [| t toks IH]; intros i acc w Hlen.
  - cbn. now rewrite app_nil_r.
  - cbn [pipeline_string.getSplits_loop length] in *. rewrite run_bind.
    destruct (lookup_lt_is_Some_2 (offsets r) i ltac:(lia)) as [o Ho].
    rewrite Ho, run_ret, IH by lia.
    rewrite (drop_S _ _ _ Ho). cbn [zip_with]. now rewrite <- app_assoc.
Qed.

Lemma getSplits_loop_short_offsets (r : SplitResult) (toks : list string) :
  forall i acc w,
    (i <= length (offsets r) < i + length toks)%nat ->
    pipeline_string.getSplits_loop r true i toks acc w
    = (Throw (mkExn TypeError "Cannot read properties of undefined"), w).
Proof.
  induction toks as [| t toks IH]; intros i acc w Hlen.
  - cbn [length] in Hlen. lia.
  - cbn [pipeline_string.getSplits_loop length] in *. rewrite run_bind.
    destruct (offsets r !! i) as [o |] eqn:Ho.
    + pose proof (lookup_lt_Some _ _ _ Ho). rewrite run_ret. apply IH. lia.
    + reflexivity.
Qed.

End SplitsLoop.

(** X14.  The loop that assembles the result of [getSplits] keeps the tokens
    in order, one pair per token.  Without offsets every pair carries
    [null]; with offsets the i-th token is paired with the start and end of
    the i-th offset, provided the reply holds an offset for every token;
    when it holds fewer, reading the missing one raises a [TypeError]. *)
Theorem getSplits_pairs_tokens_with_offsets `{Generated} `{Native}
    (r : SplitResult) (w : World) :
  pipeline_string.getSplits_loop r false 0 (tokens r) [] w
    = (Normal (map (fun t => (t, None)) (tokens r)), w) /\
  ((length (tokens r) <= length (offsets r))%nat ->
   pipeline_string.getSplits_loop r true 0 (tokens r) [] w
   = (Normal (zip_with (fun t o => (t, Some (start o, end_ o)))
                (tokens r) (offsets r)), w)) /\
  ((length (offsets r) < length (tokens r))%nat ->
   pipeline_string.getSplits_loop r true 0 (tokens r) [] w
   = (Throw (mkExn TypeError "Cannot read properties of undefined"), w)).
Proof.
  split; [apply getSplits_loop_without_offsets |].
  split; intros Hlen.
  - rewrite getSplits_loop_with_offsets by (cbn; lia). reflexivity.
  - apply getSplits_loop_short_offsets. cbn. lia.
Qed.

Lemma getSplits_pairs_tokens_with_offsets_witness :
  let G : Generated := sample_generated in
  let N : Native := obliging_native "" in
  let r := mkSplitResult ["Hello"; "world"]%string [mkOffsets 0 5; mkOffsets 6 11] in
  pipeline_string.getSplits_loop r true 0 (tokens r) [] empty_world
  = (Normal [("Hello"%string, Some (0, 5)); ("world"%string, Some (6, 11))], empty_world) /\
  pipeline_string.getSplits_loop (mkSplitResult ["Hello"; "world"]%string [mkOffsets 0 5])
    true 0 ["Hello"; "world"]%string [] empty_world
  = (Throw (mkExn TypeError "Cannot read properties of undefined"), empty_world).
Proof.
  intros G N r. split.
  - apply (proj1 (proj2 (@getSplits_pairs_tokens_with_offsets G N r empty_world))).
    simpl. lia.
  - apply (proj2 (proj2 (@getSplits_pairs_tokens_with_offsets G N
                           (mkSplitResult ["Hello"; "world"]%string [mkOffsets 0 5])
                           empty_world))).
    simpl. lia.
Defined.

(** ** Termination of [dispose] *)

(** X15.  In a store where the children of every Sequence were created
    before it, [dispose()] on any object of the store comes to an end,
    returning or raising, and leaves the store in that shape. *)
Theorem dispose_ends_on_well_formed_store (this : ref) (w : World) :
  wf_heap (heap w) ->
  (this < length (heap w))%nat ->
  ((exists w', dispose this w = (Normal tt, w')) \/
   (exists e w', dispose this w = (Throw e, w'))) /\
  wf_heap (heap (snd (dispose this w))).
Proof.
  intros Hwf Hlt. split; [| now apply dispose_wf].
  pose proof (dispose_not_stuck this w Hwf Hlt) as Hns.
  destruct (dispose this w) as [[[] | e |] w'].
  - left. eauto.
  - right. eauto.
  - exfalso. apply Hns. reflexivity.
Qed.

Lemma dispose_ends_on_well_formed_store_witness :
  let w := mkWorld [mkObject Normalizer 7 []; mkObject Tokenizer 5 [];
                    mkObject NormalizerSequence 3 [0]%nat;
                    mkObject NormalizerSequence 4 [2; 0]%nat] [] in
  ((exists w', dispose 3%nat w = (Normal tt, w')) \/
   (exists e w', dispose 3%nat w = (Throw e, w'))) /\
  wf_heap (heap (snd (dispose 3%nat w))).
Proof.
  intros w. apply (dispose_ends_on_well_formed_store 3%nat w).
  - intros r o Hr.
    destruct r as [| [| [| [| r]]]]; cbn in Hr; try discriminate;
      injection Hr as <-; cbn [children]; repeat constructor; lia.
  - simpl. lia.
Defined.

(** ** [Replace] *)

(** X17.  The [Replace] normalizer chooses the field of its message by the
    flag as documented: a pattern with [isRegex = false] is handed over as
    [stringReplacement], a pattern with [isRegex = true] as
    [regexReplacement], and the content is passed on as it is. *)
Theorem Replace_isRegex_as_documented `{Generated} `{Native} (pattern content : string)
    (isRegex : bool) :
  normalizers.Replace_message pattern content false
    = mkRep (Some pattern) None content /\
  normalizers.Replace_message pattern content true
    = mkRep None (Some pattern) content /\
  normalizers.Replace pattern content isRegex
    = normalizers.Normalizer_new Normalizer
        (NormalizerWrapper.replace
           (normalizers.Replace_message pattern content isRegex)).
Proof. repeat split. Qed.
